(** * Job alert pipeline: identity keys, deduplication, scoring and storage

    A shallow embedding of the aggregation pipeline of the job alert tool
    (`utils/helpers.py`, `scrapers/__init__.py`, `scrapers/base.py`,
    `storage/local_storage.py`, `llm/job_scorer.py`, `llm/resume_matcher.py`
    and `main.py`), followed by the properties of its specification.

    Modelling conventions.
    - A Python `str` is a list of characters; a character is a code point
      below 256 ([ascii]), classified as CPython classifies U+0000..U+00FF.
    - A job dictionary is a record of optional fields: [None] stands for an
      absent key, so that `job.get(k, d)` is [default d (k job)].
    - Python sets are [gset], dictionaries used as maps are [gmap].
    - `datetime.now()` is an explicit argument.
    - A finite float is the rational it denotes; the arithmetic of the
      scoring stage rounds to binary64 ([Float64]), and the ratio of
      `_keyword_match` is computed exactly. *)

From Stdlib Require Import ZArith QArith Qround Qabs Ascii String List Bool Lia.
From Stdlib Require Import DecimalString Sorted.
From stdpp Require Import gmap strings list sets.
Import ListNotations.

Set Warnings "-clear-no-such-hyp".

Local Open Scope Z_scope.

(** ** Python strings *)

Module PyStr.

Abbreviation pystr := (list ascii).

Definition py (s : string) : pystr := list_ascii_of_string s.

Definition code (c : ascii) : N := N_of_ascii c.

Definition between (lo hi n : N) : bool := ((lo <=? n) && (n <=? hi))%N.

(** `str.isalnum` on one character. *)
Definition isalnum (c : ascii) : bool :=
  let n := code c in
  between 48 57 n || between 65 90 n || between 97 122 n
  || (n =? 170)%N || between 178 179 n || (n =? 181)%N || between 185 186 n
  || between 188 190 n || between 192 214 n || between 216 246 n
  || between 248 255 n.

(** `str.isspace` on one character; `str.split()` and `str.strip()` use the
    same class. *)
Definition isspace (c : ascii) : bool :=
  let n := code c in
  between 9 13 n || between 28 32 n || (n =? 133)%N || (n =? 160)%N.

(** `str.lower` on one character. *)
Definition lower_char (c : ascii) : ascii :=
  let n := code c in
  if between 65 90 n || between 192 214 n || between 216 222 n
  then ascii_of_N (n + 32) else c.

(** `s.lower()` *)
Definition lower (s : pystr) : pystr := map lower_char s.

(** `s.lstrip()`, `s.rstrip()`, `s.strip()` *)
Fixpoint lstrip (s : pystr) : pystr :=
  match s with
  | c :: s' => if isspace c then lstrip s' else s
  | [] => []
  end.

Definition rstrip (s : pystr) : pystr := rev (lstrip (rev s)).

Definition strip (s : pystr) : pystr := rstrip (lstrip s).

(** `s.split()`: the maximal runs of non-whitespace characters. [cur] is the
    run being read. *)
Definition flush (cur : pystr) : list pystr :=
  match cur with [] => [] | _ => [cur] end.

Fixpoint split_go (cur : pystr) (s : pystr) : list pystr :=
  match s with
  | [] => flush cur
  | c :: s' =>
      if isspace c then flush cur ++ split_go [] s'
      else split_go (cur ++ [c]) s'
  end.

Definition split (s : pystr) : list pystr := split_go [] s.

(** `sep.join(parts)` *)
Fixpoint join (sep : pystr) (parts : list pystr) : pystr :=
  match parts with
  | [] => []
  | [p] => p
  | p :: rest => p ++ sep ++ join sep rest
  end.

Definition pystr_eqb (a b : pystr) : bool := bool_decide (a = b).

(** `s.startswith(p)` *)
Fixpoint startswith (p s : pystr) : bool :=
  match p, s with
  | [], _ => true
  | _ :: _, [] => false
  | a :: p', b :: s' => bool_decide (a = b) && startswith p' s'
  end.

(** `sub in s` for strings *)
Fixpoint contains (sub s : pystr) : bool :=
  startswith sub s ||
  match s with
  | [] => false
  | _ :: s' => contains sub s'
  end.

(** `s[:n]` for a non-negative bound *)
Definition slice_to (n : nat) (s : pystr) : pystr := take n s.

(** Truth value of a string. *)
Definition truthy (s : pystr) : bool :=
  match s with [] => false | _ => true end.

End PyStr.

Import PyStr.

(** ** Python values and exceptions *)

Inductive PyError := TypeError | ValueError | OverflowError | KeyError.

(** Outcome of a call that may raise. *)
Inductive Exc (A : Type) :=
  | Return (a : A)
  | Raise (e : PyError).
Arguments Return {A} a.
Arguments Raise {A} e.

#[global] Instance exc_bind : MBind Exc := fun A B f x =>
  match x with Return a => f a | Raise e => Raise e end.

#[global] Instance exc_ret : MRet Exc := fun A a => Return a.

(** A Python `float`. *)
Inductive pyfloat :=
  | FFinite (q : Q)
  | FInf (negative : bool)
  | FNan.

(** What `json.loads` can return.  The items of an object are in the order
    of the dictionary, one for each key. *)
#[warnings="-register-all"]
Inductive JSON :=
  | JNull
  | JBool (b : bool)
  | JInt (z : Z)
  | JFloat (f : pyfloat)
  | JStr (s : pystr)
  | JArr (l : list JSON)
  | JObj (items : list (pystr * JSON)).

(** A match object: groups 0 and 1. *)
Record Match := mkMatch { group0 : pystr; group1 : pystr }.

(** The library and operating-system calls the scorer relies on.
    [subprocess_run] gives `(returncode, stdout)`, or [None] when the call
    raises or times out; [json_loads] gives [None] for `JSONDecodeError`;
    [re_search pattern dotall text] and [re_findall pattern text] are the
    functions of `re`. *)
Record Runtime := mkRuntime {
  subprocess_run : list pystr -> option (Z * pystr);
  json_loads : pystr -> option JSON;
  re_search : pystr -> bool -> pystr -> option Match;
  re_findall : pystr -> pystr -> list pystr
}.

Module PyVal.

Definition dq : ascii := ascii_of_nat 34.
Definition nl : ascii := ascii_of_nat 10.
Definition backslash : ascii := ascii_of_nat 92.

(** A word between double quotes. *)
Definition quoted (s : pystr) : pystr := dq :: s ++ [dq].

Definition isdigit10 (c : ascii) : bool := between 48 57 (code c).

Definition digit_val (c : ascii) : Z := Z.of_N (code c) - 48.

(** Digits of a decimal literal, with single underscores between digits;
    [prev] tells whether the previous character was a digit. *)
Fixpoint digits_go (acc : Z) (prev : bool) (s : pystr) : option Z :=
  match s with
  | [] => if prev then Some acc else None
  | c :: s' =>
      if isdigit10 c then digits_go (acc * 10 + digit_val c) true s'
      else if bool_decide (c = "_"%char) && prev then digits_go acc false s'
      else None
  end.

(** The characters `int()` skips at both ends of a string: the ASCII
    whitespace of C, and the other Unicode spaces, which it first turns into
    blanks.  U+001C to U+001F, which `str.strip` removes, are not among
    them. *)
Definition int_space (c : ascii) : bool :=
  let n := code c in
  between 9 13 n || (n =? 32)%N || (n =? 133)%N || (n =? 160)%N.

Fixpoint int_lstrip (s : pystr) : pystr :=
  match s with
  | c :: s' => if int_space c then int_lstrip s' else s
  | [] => []
  end.

Definition int_strip (s : pystr) : pystr :=
  rev (int_lstrip (rev (int_lstrip s))).

(** `int(s)` for a string, base 10. *)
Definition int_of_pystr (s : pystr) : Exc Z :=
  let body := int_strip s in
  let r :=
    match body with
    | c :: rest =>
        if bool_decide (c = "-"%char) then Z.opp <$> digits_go 0 false rest
        else if bool_decide (c = "+"%char) then digits_go 0 false rest
        else digits_go 0 false body
    | [] => None
    end in
  match r with Some z => Return z | None => Raise ValueError end.

(** `int(x)` for a float: truncation toward zero. *)
Definition int_of_float (f : pyfloat) : Exc Z :=
  match f with
  | FFinite q => Return (Z.quot (Qnum q) (Zpos (Qden q)))
  | FInf _ => Raise OverflowError
  | FNan => Raise ValueError
  end.

(** `int(v)` *)
Definition py_int (v : JSON) : Exc Z :=
  match v with
  | JInt z => Return z
  | JBool b => Return (if b then 1 else 0)
  | JFloat f => int_of_float f
  | JStr s => int_of_pystr s
  | JNull | JArr _ | JObj _ => Raise TypeError
  end.

(** Truth value of a value. *)
Definition json_truthy (v : JSON) : bool :=
  match v with
  | JNull => false
  | JBool b => b
  | JInt z => negb (z =? 0)
  | JFloat (FFinite q) => negb (Qeq_bool q 0)
  | JFloat _ => true
  | JStr s => truthy s
  | JArr l => match l with [] => false | _ => true end
  | JObj items => match items with [] => false | _ => true end
  end.

Definition is_str (k : pystr) (v : JSON) : bool :=
  match v with JStr s => bool_decide (s = k) | _ => false end.

(** `k in v` for a string [k] *)
Definition py_in (k : pystr) (v : JSON) : Exc bool :=
  match v with
  | JObj items => Return (existsb (fun kv => bool_decide (kv.1 = k)) items)
  | JStr s => Return (contains k s)
  | JArr l => Return (existsb (is_str k) l)
  | JNull | JBool _ | JInt _ | JFloat _ => Raise TypeError
  end.

(** `v[k]` for a string [k] *)
Definition py_getitem (k : pystr) (v : JSON) : Exc JSON :=
  match v with
  | JObj items =>
      match List.find (fun kv => bool_decide (kv.1 = k)) items with
      | Some kv => Return kv.2
      | None => Raise KeyError
      end
  | _ => Raise TypeError
  end.

(** The items of `for x in v`, when every one of them is a string: the
    elements of a list, the characters of a string, the keys of a
    dictionary.  A value that cannot be iterated, or an item that is not a
    string, makes the loops and joins below raise. *)
Fixpoint all_strs (l : list JSON) : option (list pystr) :=
  match l with
  | [] => Some []
  | JStr s :: l' => (fun rest => s :: rest) <$> all_strs l'
  | _ :: _ => None
  end.

Definition iter_strs (v : JSON) : Exc (list pystr) :=
  match v with
  | JArr l =>
      match all_strs l with Some strs => Return strs | None => Raise TypeError end
  | JStr s => Return (map (fun c => [c]) s)
  | JObj items => Return (map fst items)
  | JNull | JBool _ | JInt _ | JFloat _ => Raise TypeError
  end.

(** `v[:n]`.  A dictionary raises `TypeError`, or `KeyError` in the versions
    of Python where a slice can be hashed; the callers catch either. *)
Definition py_slice_to (n : nat) (v : JSON) : Exc JSON :=
  match v with
  | JArr l => Return (JArr (take n l))
  | JStr s => Return (JStr (take n s))
  | JNull | JBool _ | JInt _ | JFloat _ | JObj _ => Raise TypeError
  end.

(** `sep.join(v)` *)
Definition py_join (sep : pystr) (v : JSON) : Exc pystr :=
  parts ← iter_strs v; Return (join sep parts).

(** A list of strings as a value. *)
Definition str_list (l : list pystr) : JSON := JArr (map JStr l).

End PyVal.

(** ** Floats *)

(** Python floats are binary64 numbers.  A finite one is kept as the
    rational it denotes, and an operation is the exact operation followed by
    rounding to the nearest binary64 number, ties to even.  The sign of a
    zero is not kept; comparisons and sorting do not see it. *)

Module Float64.

(** `round(x)` on an exact value: to the nearest integer, ties to even. *)
Definition half_even (q : Q) : Z :=
  let f := Qfloor q in
  let twice := (2 * (q - inject_Z f))%Q in
  if Qle_bool twice 1 && negb (Qeq_bool twice 1) then f
  else if Qeq_bool twice 1 then (if Z.even f then f else f + 1)
  else f + 1.

(** [2 ^ k] for any integer [k]. *)
Definition two_pow (k : Z) : Q :=
  if 0 <=? k then inject_Z (2 ^ k) else (/ inject_Z (2 ^ (- k)))%Q.

(** The integer [e] with [2 ^ e <= n / d < 2 ^ (e + 1)]. *)
Definition floor_log2 (n d : positive) : Z :=
  let e := Z.log2 (Zpos n) - Z.log2 (Zpos d) in
  if 0 <=? e
  then (if Zpos n <? Zpos d * 2 ^ e then e - 1 else e)
  else (if Zpos n * 2 ^ (- e) <? Zpos d then e - 1 else e).

(** The nearest number with a 53-bit significand and an exponent of at
    least -1074, ties to even: rounding to binary64 before the range
    check. *)
Definition nearest (q : Q) : Q :=
  match Qnum q with
  | 0 => 0%Q
  | Zpos n | Zneg n =>
      let k := Z.max (floor_log2 n (Qden q) - 52) (-1074) in
      Qred (inject_Z (half_even (q / two_pow k)) * two_pow k)
  end.

(** Rounding to binary64: a result of magnitude `2 ** 1024` or more is an
    infinity. *)
Definition fl (q : Q) : pyfloat :=
  let r := nearest q in
  if Qle_bool (two_pow 1024) (Qabs r) then FInf (Qnum r <? 0) else FFinite r.

(** `float(z)`, as `z * 0.4` converts an `int` operand. *)
Definition of_int (z : Z) : Exc pyfloat :=
  match fl (inject_Z z) with
  | FInf _ => Raise OverflowError
  | f => Return f
  end.

Definition is_neg (q : Q) : bool := Qnum q <? 0.

Definition is_zero (q : Q) : bool := Qnum q =? 0.

(** `a * b` *)
Definition mul (a b : pyfloat) : pyfloat :=
  match a, b with
  | FNan, _ | _, FNan => FNan
  | FFinite x, FFinite y => fl (x * y)
  | FInf s, FInf t => FInf (xorb s t)
  | FInf s, FFinite y | FFinite y, FInf s =>
      if is_zero y then FNan else FInf (xorb s (is_neg y))
  end.

(** `a + b` *)
Definition add (a b : pyfloat) : pyfloat :=
  match a, b with
  | FNan, _ | _, FNan => FNan
  | FFinite x, FFinite y => fl (x + y)
  | FInf s, FInf t => if eqb s t then FInf s else FNan
  | FInf s, FFinite _ | FFinite _, FInf s => FInf s
  end.

(** `a >= b` *)
Definition ge (a b : pyfloat) : bool :=
  match a, b with
  | FNan, _ | _, FNan => false
  | FFinite x, FFinite y => Qle_bool y x
  | FInf s, FInf t => negb s || t
  | FInf s, FFinite _ => negb s
  | FFinite _, FInf t => t
  end.

(** `round(x, 1)` for a finite [x]: the float nearest to the decimal with one
    digit after the point that is nearest to [x], ties to even.  The decimal
    is never further from zero than the largest float. *)
Definition round1 (x : Q) : Q :=
  nearest (Qmake (half_even (x * 10)%Q) 10).

(** The literals `0.4` and `0.6`. *)
Definition c04 : Q := 3602879701896397 # 9007199254740992.
Definition c06 : Q := 5404319552844595 # 9007199254740992.

End Float64.

(** ** Job dictionaries *)

(** The keys a job dictionary carries: those written by the adapters
    (`_standardize_job`), those added by the scoring stage, and `added_at`,
    added by the store.  The two skill entries the stage adds hold what the
    matcher returned for them: a list of strings from `_keyword_match`
    ([PyVal.str_list]), any decoded value from a reply of the model. *)
Record Job := mkJob {
  title : option pystr;
  company : option pystr;
  location : option pystr;
  link : option pystr;
  date_posted : option pystr;
  source : option pystr;
  description : option pystr;
  salary : option pystr;
  job_type : option pystr;
  experience_level : option pystr;
  skills : option (list pystr);
  scraped_at : option pystr;
  relevance_score : option Z;
  match_score : option Z;
  combined_score : option Q;
  matching_skills : option JSON;
  missing_skills : option JSON;
  ai_score : option Z;
  added_at : option pystr
}.

(** The empty dictionary `{}`. *)
Definition empty_job : Job :=
  mkJob None None None None None None None None None None None None
        None None None None None None None.

(** `k in job` *)
Definition present {A} (o : option A) : bool :=
  match o with Some _ => true | None => false end.

(** Truth value of a dictionary: it has at least one key. *)
Definition job_truthy (j : Job) : bool :=
  present (title j) || present (company j) || present (location j)
  || present (link j) || present (date_posted j) || present (source j)
  || present (description j) || present (salary j) || present (job_type j)
  || present (experience_level j) || present (skills j)
  || present (scraped_at j) || present (relevance_score j)
  || present (match_score j) || present (combined_score j)
  || present (matching_skills j) || present (missing_skills j)
  || present (ai_score j) || present (added_at j).

(** `job['added_at'] = v` *)
Definition set_added_at (v : pystr) (j : Job) : Job :=
  mkJob (title j) (company j) (location j) (link j) (date_posted j)
        (source j) (description j) (salary j) (job_type j)
        (experience_level j) (skills j) (scraped_at j) (relevance_score j)
        (match_score j) (combined_score j) (matching_skills j)
        (missing_skills j) (ai_score j) (Some v).

(** The six assignments of the scoring stage, in one update. *)
Definition set_scores (r m : Z) (c : Q) (ms miss : JSON) (ai : Z)
    (j : Job) : Job :=
  mkJob (title j) (company j) (location j) (link j) (date_posted j)
        (source j) (description j) (salary j) (job_type j)
        (experience_level j) (skills j) (scraped_at j) (Some r) (Some m)
        (Some c) (Some ms) (Some miss) (Some ai) (added_at j).

(** A job dictionary with a title and a company only. *)
Definition posting (t c : string) : Job :=
  mkJob (Some (py t)) (Some (py c)) None None None None None None None None
        None None None None None None None None None.

(** ** utils/helpers.py *)

Module Helpers.

(** `c.isalnum() or c.isspace()` *)
Definition keep (c : ascii) : bool := isalnum c || isspace c.

(** One side of the identity key:
    `s = ''.join(c.lower() for c in s if c.isalnum() or c.isspace())`
    followed by `' '.join(s.split())`. *)
Definition normalized (s : pystr) : pystr :=
  join (py " ") (split (map lower_char (List.filter keep s))).

Definition _normalize_job_key (t c : pystr) : pystr :=
  normalized t ++ py "|" ++ normalized c.

(** The key of a job dictionary, with the `.get(..., '')` defaults. *)
Definition dedup_key (job : Job) : pystr :=
  _normalize_job_key (default [] (title job)) (default [] (company job)).

(** First loop of `deduplicate_jobs`: the keys of the stored pairs. *)
Definition existing_keys_of (existing_jobs : list (pystr * pystr))
    : gset pystr :=
  foldl (fun keys tc => keys ∪ {[ _normalize_job_key tc.1 tc.2 ]})
        ∅ existing_jobs.

(** Body of the second loop; the state is `(unique_jobs, seen_in_batch)`. *)
Definition dedup_step (existing_keys : gset pystr)
    (st : list Job * gset pystr) (job : Job) : list Job * gset pystr :=
  let key := dedup_key job in
  if bool_decide (key ∉ existing_keys) && bool_decide (key ∉ st.2)
  then (st.1 ++ [job], st.2 ∪ {[ key ]})
  else st.

Definition deduplicate_jobs (new_jobs : list Job)
    (existing_jobs : list (pystr * pystr)) : list Job :=
  (foldl (dedup_step (existing_keys_of existing_jobs)) ([], ∅) new_jobs).1.

End Helpers.

(** ** scrapers/__init__.py and scrapers/base.py *)

Module Scrapers.

(** `JobScraperManager._job_key` *)
Definition _job_key (job : Job) : pystr :=
  let t := strip (lower (default [] (title job))) in
  let c := strip (lower (default [] (company job))) in
  let t := List.filter Helpers.keep t in
  let c := List.filter Helpers.keep c in
  t ++ py "|" ++ c.

(** Truth value of an optional string argument (`None` or a `str`). *)
Definition arg_truthy (a : option pystr) : bool :=
  match a with Some s => truthy s | None => false end.

(** `x.strip() if x else d` *)
Definition strip_or (d : pystr) (a : option pystr) : pystr :=
  if arg_truthy a then strip (default [] a) else d.

(** `BaseScraper._standardize_job`; [source_name] is the class attribute
    `SOURCE_NAME`, [today] and [now_iso] are the two renderings of
    `datetime.now()`.  The `**extra` keys, which cannot rebind a named
    parameter, are left out. *)
Definition _standardize_job (source_name today now_iso : pystr)
    (title_ company_ location_ link_ : option pystr)
    (date_posted_ : option pystr) (description_ : option pystr)
    (salary_ job_type_ experience_level_ : pystr)
    (skills_ : option (list pystr)) : Job :=
  {| title := Some (strip_or (py "Unknown") title_);
     company := Some (strip_or (py "Unknown") company_);
     location := Some (strip_or (py "Remote") location_);
     link := Some (strip_or [] link_);
     date_posted :=
       Some (if arg_truthy date_posted_ then default [] date_posted_
             else today);
     source := Some source_name;
     description :=
       Some (if arg_truthy description_
             then slice_to 1000 (default [] description_) else []);
     salary := Some salary_;
     job_type := Some job_type_;
     experience_level := Some experience_level_;
     skills :=
       Some (match skills_ with
             | Some (x :: l) => x :: l
             | _ => []
             end);
     scraped_at := Some now_iso;
     relevance_score := None; match_score := None; combined_score := None;
     matching_skills := None; missing_skills := None; ai_score := None;
     added_at := None |}.

End Scrapers.

(** ** storage/local_storage.py *)

Module Storage.

(** A value of a CSV row: a string, or any other value, kept by what `str()`
    returns for it. *)
Inductive Cell :=
  | CStr (s : pystr)
  | COther (repr : pystr).

(** `str(cell)` *)
Definition str_cell (c : Cell) : pystr :=
  match c with CStr s => s | COther r => r end.

Definition HEADERS : list pystr :=
  [py "Date"; py "Job Title"; py "Company"; py "Location"; py "Link";
   py "Source"; py "Relevance Score"; py "Match Score"; py "Combined Score";
   py "Status"; py "Matching Skills"; py "Missing Skills"; py "Salary";
   py "Job Type"].

(** One entry of `daily_stats`. *)
Record DayStat := mkDayStat { count : Z; avg_score : Z }.

(** Contents of `analytics.json`. *)
Record Analytics := mkAnalytics {
  daily_stats : gmap pystr DayStat;
  source_stats : gmap pystr Z;
  skill_frequency : gmap pystr Z
}.

(** Contents of the four backing files. *)
Record Store := mkStore {
  csv_rows : list (list Cell);
  json_jobs : list Job;
  metadata_total_jobs : Z;
  metadata_last_updated : option pystr;
  index : gmap pystr pystr;
  index_updated : option pystr;
  analytics : Analytics
}.

(** The two renderings of `datetime.now()` a call uses. *)
Record Clock := mkClock { isoformat : pystr; today : pystr }.

(** The files as `_ensure_files_exist` creates them. *)
Definition fresh_store : Store :=
  {| csv_rows := [map CStr HEADERS];
     json_jobs := [];
     metadata_total_jobs := 0;
     metadata_last_updated := None;
     index := ∅;
     index_updated := None;
     analytics := mkAnalytics ∅ ∅ ∅ |}.

Definition _normalize_key (t c : pystr) : pystr :=
  let t := map lower_char (List.filter Helpers.keep t) in
  let c := map lower_char (List.filter Helpers.keep c) in
  join (py " ") (split t) ++ py "|" ++ join (py " ") (split c).

Definition job_exists (st : Store) (t c : pystr) : bool :=
  bool_decide (is_Some (index st !! _normalize_key t c)).

(** `d[k] = d.get(k, 0) + 1` *)
Definition bump (k : pystr) (d : gmap pystr Z) : gmap pystr Z :=
  <[ k := default 0 (d !! k) + 1 ]> d.

(** `_update_analytics(job)`.  The file is written after the loop over the
    matching skills, inside the `try`: when the loop raises (the entry cannot
    be iterated, or an item has no `lower`), nothing is written and the
    analytics stay as they were. *)
Definition _update_analytics (now : Clock) (job : Job) (a : Analytics)
    : Analytics :=
  let day := default (mkDayStat 0 0) (daily_stats a !! today now) in
  match PyVal.iter_strs (default (JArr []) (matching_skills job)) with
  | Return skills =>
      {| daily_stats :=
           <[ today now := mkDayStat (count day + 1) (avg_score day) ]>
             (daily_stats a);
         source_stats :=
           bump (default (py "Unknown") (source job)) (source_stats a);
         skill_frequency :=
           foldl (fun freq skill => bump (lower skill) freq)
                 (skill_frequency a) skills |}
  | Raise _ => a
  end.

(** `while len(row_data) < len(self.HEADERS): row_data.append('')` *)
Definition pad_row (row_data : list Cell) : list Cell :=
  row_data ++ replicate (length HEADERS - length row_data)%nat (CStr []).

(** `str(row_data[i]) if len(row_data) > i else ''` *)
Definition row_field (i : nat) (row_data : list Cell) : pystr :=
  from_option str_cell [] (row_data !! i).

(** `append_job(row_data, job_dict)`: the returned flag and the files after
    the call.  File operations are taken to succeed. *)
Definition append_job (now : Clock) (row_data : list Cell)
    (job_dict : option Job) (st : Store) : bool * Store :=
  let t := row_field 1 row_data in
  let c := row_field 2 row_data in
  if job_exists st t c then (false, st)
  else
    let row := take (length HEADERS) (pad_row row_data) in
    (* `if job_dict:` holds for a dictionary with a key; it is then stamped
       with `added_at` and appended to the JSON list *)
    let stored :=
      match job_dict with
      | Some j =>
          if job_truthy j then Some (set_added_at (isoformat now) j) else None
      | None => None
      end in
    let jobs := json_jobs st ++ option_list stored in
    (true,
     {| csv_rows := csv_rows st ++ [row];
        json_jobs := jobs;
        metadata_total_jobs :=
          if present stored then Z.of_nat (length jobs)
          else metadata_total_jobs st;
        metadata_last_updated :=
          if present stored then Some (isoformat now)
          else metadata_last_updated st;
        index := <[ _normalize_key t c := isoformat now ]> (index st);
        index_updated := Some (isoformat now);
        analytics :=
          _update_analytics now (default empty_job stored) (analytics st) |}).

Definition get_all_jobs (st : Store) : list Job := json_jobs st.

Definition get_job_count (st : Store) : nat := length (get_all_jobs st).

End Storage.

(** ** llm/job_scorer.py *)

Module Scorer.

Import PyVal.

Definition HIGH_RELEVANCE : list pystr :=
  [py "machine learning engineer"; py "ml engineer"; py "ai engineer";
   py "deep learning engineer"; py "data scientist"; py "research scientist";
   py "applied scientist"; py "nlp engineer"; py "computer vision engineer";
   py "mlops engineer"; py "ml platform"; py "ai researcher";
   py "llm engineer"].

Definition MEDIUM_RELEVANCE : list pystr :=
  [py "data engineer"; py "ml "; py " ml"; py " ai "; py "ai ";
   py "analytics engineer"; py "research engineer"; py "quantitative";
   py "machine learning"; py "artificial intelligence"; py "neural network";
   py "deep learning"].

Definition LOW_RELEVANCE : list pystr :=
  [py "data analyst"; py "business intelligence"; py "python developer";
   py "backend engineer"; py "software engineer"; py "full stack"].

(** `SCORING_PROMPT.format(title=..., company=..., description=...)` *)
Definition SCORING_PROMPT (title_ company_ description_ : pystr) : pystr :=
  py "You are an AI/ML job relevance scorer. Analyze this job posting and score its relevance for AI/Machine Learning roles."
  ++ [nl; nl] ++ py "Job Details:" ++ [nl]
  ++ py "- Title: " ++ title_ ++ [nl]
  ++ py "- Company: " ++ company_ ++ [nl]
  ++ py "- Description: " ++ description_ ++ [nl; nl]
  ++ py "Scoring Criteria (1-10 scale):" ++ [nl]
  ++ py "- 9-10: Core AI/ML role (ML Engineer, Data Scientist, AI Researcher, Deep Learning, NLP, Computer Vision, MLOps, LLM Engineer)" ++ [nl]
  ++ py "- 7-8: AI/ML adjacent role (Data Engineer with ML, Backend with ML systems, Research roles)" ++ [nl]
  ++ py "- 5-6: Roles with some AI/ML exposure (Data Analyst, Full Stack with AI features)" ++ [nl]
  ++ py "- 1-4: Not AI/ML related (Generic software, unrelated positions)" ++ [nl; nl]
  ++ py "Respond with ONLY a JSON object:" ++ [nl]
  ++ py "{" ++ quoted (py "score") ++ py ": <number 1-10>, "
  ++ quoted (py "reason") ++ py ": "
  ++ quoted (py "<brief 10-word explanation>") ++ py ", "
  ++ quoted (py "is_ml_role") ++ py ": <true/false>}" ++ [nl].

Definition _call_ollama (rt : Runtime) (model prompt : pystr)
    : option pystr :=
  match subprocess_run rt [py "ollama"; py "run"; model; prompt] with
  | Some (returncode, stdout) =>
      if returncode =? 0 then Some (strip stdout) else None
  | None => None
  end.

(** The three patterns of `_parse_llm_response`. *)
Definition json_object_pattern : pystr :=
  py "\{[^{}]*" ++ quoted (py "score") ++ py "\s*:\s*(\d+)[^{}]*\}".

Definition score_field_pattern : pystr :=
  quoted (py "score") ++ py "\s*:\s*(\d+)".

Definition number_pattern : pystr := py "\b([1-9]|10)\b".

(** `{'score': n, 'reason': why}` *)
Definition score_dict (n : Z) (why : pystr) : JSON :=
  JObj [(py "score", JInt n); (py "reason", JStr why)].

(** `_parse_llm_response`; [None] is Python's `None`. *)
Definition _parse_llm_response (rt : Runtime) (response : pystr)
    : Exc (option JSON) :=
  if negb (truthy response) then Return None
  else
    match json_loads rt response with
    | Some v => Return (Some v)
    | None =>
        let extracted :=
          match re_search rt json_object_pattern true response with
          | Some m => json_loads rt (group0 m)
          | None => None
          end in
        match extracted with
        | Some v => Return (Some v)
        | None =>
            match re_search rt score_field_pattern false response with
            | Some m =>
                n ← int_of_pystr (group1 m);
                Return (Some (score_dict n (py "Extracted from response")))
            | None =>
                match re_findall rt number_pattern response with
                | first :: _ =>
                    n ← int_of_pystr first;
                    Return (Some (score_dict n (py "Number extracted")))
                | [] => Return None
                end
            end
        end
    end.

(** `any(keyword in combined for keyword in keywords)`, as the loops of
    `_fallback_score` compute it. *)
Definition any_keyword (keywords : list pystr) (text : pystr) : bool :=
  existsb (fun keyword => contains keyword text) keywords.

Definition _fallback_score (job : Job) : Z :=
  let t := lower (default [] (title job)) in
  let d := lower (default [] (description job)) in
  let combined := t ++ py " " ++ d in
  if any_keyword HIGH_RELEVANCE combined then 9
  else if any_keyword MEDIUM_RELEVANCE combined then 7
  else if any_keyword LOW_RELEVANCE combined then 5
  else 3.

(** `x or d` for strings *)
Definition str_or (x d : pystr) : pystr := if truthy x then x else d.

Definition score_relevance (rt : Runtime) (model : pystr) (job : Job)
    : Exc Z :=
  let t := default (py "Unknown") (title job) in
  let c := default (py "Unknown") (company job) in
  let d := slice_to 500 (default [] (description job)) in
  let prompt :=
    SCORING_PROMPT t c (str_or d (py "No description available")) in
  let fallback := Return (_fallback_score job) in
  match _call_ollama rt model prompt with
  | Some response =>
      if truthy response then
        result ← _parse_llm_response rt response;
        match result with
        | Some v =>
            if json_truthy v then
              has_score ← py_in (py "score") v;
              if has_score : bool then
                raw ← py_getitem (py "score") v;
                n ← py_int raw;
                Return (Z.max 1 (Z.min 10 n))
              else fallback
            else fallback
        | None => fallback
        end
      else fallback
  | None => fallback
  end.

End Scorer.

(** ** llm/resume_matcher.py *)

Module Matcher.

Import PyVal.

(** `str.replace(old, new)` for a non-empty [old]; [skip] counts the
    characters of a replaced occurrence still to be passed over. *)
Fixpoint replace_go (old new : pystr) (skip : nat) (s : pystr) : pystr :=
  match s with
  | [] => []
  | c :: s' =>
      match skip with
      | S k => replace_go old new k s'
      | O =>
          if startswith old s
          then new ++ replace_go old new (length old - 1)%nat s'
          else c :: replace_go old new 0%nat s'
      end
  end.

Definition replace (old new s : pystr) : pystr := replace_go old new 0%nat s.

(** The skill dictionary: category and regular-expression sources. *)
Definition SKILL_PATTERNS : list (pystr * list pystr) :=
  [(py "programming",
    [py "python"; py "r"; py "java"; py "scala"; py "julia"; py "c\+\+";
     py "c#"; py "javascript"; py "typescript"; py "go"; py "golang";
     py "rust"; py "sql"; py "bash"; py "shell"; py "matlab"; py "kotlin";
     py "swift"; py "ruby"; py "php"; py "perl"]);
   (py "ml_frameworks",
    [py "tensorflow"; py "pytorch"; py "keras"; py "scikit-learn";
     py "sklearn"; py "xgboost"; py "lightgbm"; py "catboost"; py "jax";
     py "mxnet"; py "paddle"; py "huggingface"; py "transformers";
     py "spacy"; py "nltk"; py "gensim"; py "fastai"]);
   (py "ml_concepts",
    [py "machine learning"; py "deep learning"; py "neural network";
     py "cnn"; py "rnn"; py "lstm"; py "transformer"; py "attention";
     py "bert"; py "gpt"; py "llm"; py "reinforcement learning";
     py "supervised learning"; py "unsupervised"; py "computer vision";
     py "nlp"; py "natural language"; py "speech recognition";
     py "recommendation system"; py "time series"; py "anomaly detection"]);
   (py "data_tools",
    [py "pandas"; py "numpy"; py "scipy"; py "dask"; py "ray"; py "polars";
     py "spark"; py "pyspark"; py "hadoop"; py "hive"; py "presto";
     py "airflow"; py "dagster"; py "prefect"; py "dbt";
     py "great expectations"]);
   (py "cloud",
    [py "aws"; py "amazon web services"; py "azure"; py "gcp";
     py "google cloud"; py "sagemaker"; py "vertex ai"; py "azure ml";
     py "databricks"; py "snowflake"; py "bigquery"; py "redshift"; py "s3";
     py "ec2"; py "lambda"]);
   (py "mlops",
    [py "mlflow"; py "kubeflow"; py "mlops"; py "model deployment";
     py "model serving"; py "docker"; py "kubernetes"; py "k8s"; py "ci/cd";
     py "github actions"; py "jenkins"; py "terraform"; py "ansible";
     py "model monitoring"; py "feature store"]);
   (py "databases",
    [py "postgresql"; py "postgres"; py "mysql"; py "mongodb"; py "redis";
     py "cassandra"; py "elasticsearch"; py "neo4j"; py "pinecone";
     py "weaviate"; py "milvus"; py "chromadb"; py "qdrant"; py "faiss"]);
   (py "tools",
    [py "git"; py "linux"; py "unix"; py "jupyter"; py "notebook";
     py "vscode"; py "wandb"; py "weights & biases"; py "tensorboard";
     py "grafana"; py "prometheus"; py "api"; py "rest"; py "graphql";
     py "fastapi"; py "flask"; py "django"])].

(** `pattern.replace('\\+\\+', '++').replace('\\', '')` *)
Definition skill_name (pattern : pystr) : pystr :=
  replace [backslash] [] (replace (py "\+\+") (py "++") pattern).

Definition _extract_skills_from_text (rt : Runtime) (text : pystr)
    : gset pystr :=
  let text_lower := lower text in
  foldl (fun skills cat =>
           foldl (fun skills pattern =>
                    match re_search rt (py "\b" ++ pattern ++ py "\b")
                                    false text_lower with
                    | Some _ => skills ∪ {[ skill_name pattern ]}
                    | None => skills
                    end)
                 skills cat.2)
        ∅ SKILL_PATTERNS.

(** The dictionary `match_job` returns. *)
Record MatchResult := mkMatchResult {
  match_score : option Z;
  matching_skills : option (list pystr);
  missing_skills : option (list pystr);
  match_summary : option pystr
}.

(** `str(n)` for a length *)
Definition str_nat (n : nat) : pystr :=
  list_ascii_of_string (NilZero.string_of_uint (Nat.to_uint n)).

(** `int(x)` for a finite float *)
Definition trunc (q : Q) : Z := Z.quot (Qnum q) (Zpos (Qden q)).

(** The skills of a job: those found in its text and those it lists. *)
Definition job_skills_of (rt : Runtime) (job : Job) : gset pystr :=
  let job_text :=
    lower (default [] (title job) ++ py " " ++ default [] (description job)) in
  let found := _extract_skills_from_text rt job_text in
  foldl (fun acc skill => acc ∪ {[ lower skill ]}) found
        (default [] (skills job)).

(** The score of `_keyword_match` from the two set sizes. *)
Definition overlap_score (n_matching n_job : nat) : Z :=
  if bool_decide (n_job = 0%nat) then 5
  else
    let match_percentage :=
      (inject_Z (Z.of_nat n_matching) / inject_Z (Z.of_nat n_job))%Q in
    Z.min 10 (Z.max 1 (trunc (match_percentage * 10)%Q + 2)).

(** `_keyword_match`; `list(a_set)[:10]` takes ten elements in the set's
    iteration order, here that of [elements]. *)
Definition _keyword_match (rt : Runtime) (user_skills : gset pystr)
    (job : Job) : MatchResult :=
  let job_skills := job_skills_of rt job in
  let matching := user_skills ∩ job_skills in
  let missing := job_skills ∖ user_skills in
  {| match_score := Some (overlap_score (size matching) (size job_skills));
     matching_skills := Some (take 10 (elements matching));
     missing_skills := Some (take 10 (elements missing));
     match_summary :=
       Some (py "Matched " ++ str_nat (size matching) ++ py "/"
             ++ str_nat (size job_skills) ++ py " required skills") |}.

End Matcher.

(** ** main.py *)

Module Main.

(** The two thresholds of `Config` the stage reads: an `int` and a
    `float`. *)
Record Config := mkConfig {
  min_relevance_score : Z;
  min_combined_score : pyfloat
}.

(** What the stage reads from the dictionary `match_job` returns.  The match
    score is an integer on both paths of `match_job`; the two skill entries
    are lists of strings from `_keyword_match` and, on the reply path,
    whatever the reply of the model holds under these keys. *)
Record MatchDict := mkMatchDict {
  match_score : option Z;
  matching_skills : option JSON;
  missing_skills : option JSON
}.

(** The dictionary of `_keyword_match`, as the stage reads it. *)
Definition of_keyword_match (r : Matcher.MatchResult) : MatchDict :=
  {| match_score := Matcher.match_score r;
     matching_skills := PyVal.str_list <$> Matcher.matching_skills r;
     missing_skills := PyVal.str_list <$> Matcher.missing_skills r |}.

(** The title keywords of the error fallback. *)
Definition FALLBACK_KEYWORDS : list pystr :=
  [py "machine learning"; py "ai "; py "ml "; py "data scientist"].

(** The `except` branch: a job with a keyword in its title is given the
    fixed scores and appended, any other job is dropped. *)
Definition on_error (processed_jobs : list Job) (job : Job) : list Job :=
  if existsb (fun kw => contains kw (lower (default [] (title job))))
             FALLBACK_KEYWORDS
  then processed_jobs ++ [set_scores 7 5 6 (JArr []) (JArr []) 6 job]
  else processed_jobs.

Section Stage.

(** The stage is given a scorer and a matcher; each call returns or raises. *)
Variable score_relevance : Job -> Exc Z.
Variable match_job : Job -> Exc MatchDict.
Variable config : Config.

(** State of the loop: `processed_jobs`, and the jobs `match_job` has been
    called with, in call order. *)
Record LoopState := mkLoopState {
  processed_jobs : list Job;
  match_calls : list Job
}.

(** `(relevance_score * 0.4) + (match_score * 0.6)`: each `int` is
    converted to a float, which raises when it is too large. *)
Definition combined_score_of (relevance m : Z) : Exc pyfloat :=
  a ← Float64.of_int relevance;
  b ← Float64.of_int m;
  Return (Float64.add (Float64.mul a (FFinite Float64.c04))
                      (Float64.mul b (FFinite Float64.c06))).

(** The part of the `try` block after the call of `match_job`: the scores
    are computed and assigned, and the unrounded combined score is returned
    with the job for the test against the threshold.  `round(combined_score)`
    is [Float64.half_even] on a finite float and raises on any other, so the
    job that is returned has a finite `round(combined_score, 1)`. *)
Definition score_job (relevance : Z) (match_result : MatchDict) (job : Job)
    : Exc (pyfloat * Job) :=
  let m := default 0 (match_score match_result) in
  let ms := default (JArr []) (matching_skills match_result) in
  let miss := default (JArr []) (missing_skills match_result) in
  combined ← combined_score_of relevance m;
  match combined with
  | FFinite c =>
      Return (combined,
              set_scores relevance m (Float64.round1 c) ms miss
                         (Float64.half_even c) job)
  | FInf _ => Raise OverflowError
  | FNan => Raise ValueError
  end.

(** Body of the loop for one job.  The jobs of the list are distinct
    dictionaries, so the assignments to one job are seen only through it. *)
Definition process_job (st : LoopState) (job : Job) : LoopState :=
  match score_relevance job with
  | Raise _ => mkLoopState (on_error (processed_jobs st) job) (match_calls st)
  | Return relevance =>
      if relevance <? min_relevance_score config then st
      else
        let calls := match_calls st ++ [job] in
        match match_job job with
        | Raise _ => mkLoopState (on_error (processed_jobs st) job) calls
        | Return match_result =>
            match score_job relevance match_result job with
            | Raise _ => mkLoopState (on_error (processed_jobs st) job) calls
            | Return (combined, job') =>
                if Float64.ge combined (min_combined_score config)
                then mkLoopState (processed_jobs st ++ [job']) calls
                else mkLoopState (processed_jobs st) calls
            end
        end
  end.

Definition sort_key (x : Job) : Q := default 0%Q (combined_score x).

(** `list.sort(key=..., reverse=True)`: descending and stable. *)
Fixpoint insert_desc (x : Job) (l : list Job) : list Job :=
  match l with
  | [] => [x]
  | y :: l' =>
      if Qle_bool (sort_key x) (sort_key y) then y :: insert_desc x l'
      else x :: l
  end.

Definition sort_desc (l : list Job) : list Job :=
  foldl (fun acc x => insert_desc x acc) [] l.

Definition run_stage (jobs : list Job) : LoopState :=
  foldl process_job (mkLoopState [] []) jobs.

Definition process_jobs_with_ai (jobs : list Job) : list Job :=
  sort_desc (processed_jobs (run_stage jobs)).

End Stage.

End Main.

(** ** utils/helpers.py: text helpers, retries, storage rows *)

Module Utils.

(** `clean_text` *)
Definition clean_text (text : pystr) : pystr :=
  if negb (truthy text) then []
  else strip (join (py " ") (split text)).

(** `s[:k]` for any integer bound: a negative bound counts from the end. *)
Definition slice_to_int (k : Z) (s : pystr) : pystr :=
  if 0 <=? k then take (Z.to_nat k) s
  else take (Z.to_nat (Z.of_nat (length s) + k)) s.

(** `truncate_text(text, max_length, suffix)` *)
Definition truncate_text (text : pystr) (max_length : Z) (suffix : pystr)
    : pystr :=
  if negb (truthy text) || (Z.of_nat (length text) <=? max_length) then text
  else slice_to_int (max_length - Z.of_nat (length suffix)) text ++ suffix.

(** `is_valid_url` *)
Definition is_valid_url (url : pystr) : bool :=
  truthy url
  && (startswith (py "http://") url || startswith (py "https://") url).

(** The loop of `retry_with_backoff(max_retries, base_delay)` from attempt
    [attempt] on, with [n] attempts left.  [func attempt] is the outcome of
    the call made at that attempt; the result comes with the delays slept,
    in order.  After the last attempt the last exception is raised. *)
Fixpoint retry_from {T} (func : nat -> Exc T) (max_retries : nat)
    (base_delay : Q) (last_exception : PyError) (n attempt : nat)
    : Exc T * list Q :=
  match n with
  | O => (Raise last_exception, [])
  | S n' =>
      match func attempt with
      | Return v => (Return v, [])
      | Raise e =>
          let rest :=
            retry_from func max_retries base_delay e n' (S attempt) in
          if (attempt <? max_retries)%nat
          then (rest.1, (base_delay * inject_Z (2 ^ Z.of_nat attempt))%Q
                        :: rest.2)
          else rest
      end
  end.

(** `retry_with_backoff(max_retries, base_delay)(func)()`.  `range` makes
    `max_retries + 1` attempts, so [last_exception] is always set before it
    is raised; its initial value `None` is never raised. *)
Definition retry_with_backoff {T} (max_retries : nat) (base_delay : Q)
    (func : nat -> Exc T) : Exc T * list Q :=
  retry_from func max_retries base_delay TypeError (S max_retries) 0.

(** A value of the row `format_job_for_storage` builds. *)
Inductive RowValue :=
  | VStr (s : pystr)
  | VInt (z : Z)
  | VNum (q : Q).

(** `', '.join(v[:5])` *)
Definition first_five (v : JSON) : Exc pystr :=
  front ← PyVal.py_slice_to 5 v; PyVal.py_join (py ", ") front.

(** `format_job_for_storage(job)`; [today] is
    `datetime.now().strftime('%Y-%m-%d')`.  It raises when a skill entry
    cannot be sliced or one of its first five items is not a string. *)
Definition format_job_for_storage (today : pystr) (job : Job)
    : Exc (list RowValue) :=
  matching ← first_five (default (JArr []) (matching_skills job));
  missing ← first_five (default (JArr []) (missing_skills job));
  Return
    [VStr (default today (date_posted job));
     VStr (default (py "Unknown") (title job));
     VStr (default (py "Unknown") (company job));
     VStr (default (py "Remote") (location job));
     VStr (default [] (link job));
     VStr (default (py "Unknown") (source job));
     VInt (default 0 (relevance_score job));
     VInt (default 0 (match_score job));
     VNum (default 0%Q (combined_score job));
     VStr (py "New");
     VStr matching;
     VStr missing;
     VStr (default [] (salary job));
     VStr (default [] (job_type job))].

(** The row as `append_job` receives it: a number is kept by what `str()`
    returns for it, given by [str_num]. *)
Definition to_cell (str_num : Q -> pystr) (v : RowValue) : Storage.Cell :=
  match v with
  | VStr s => Storage.CStr s
  | VInt z => Storage.COther (str_num (inject_Z z))
  | VNum q => Storage.COther (str_num q)
  end.

End Utils.

(** ** storage/local_storage.py: reading the index back *)

Module StorageQueries.

(** `key.split('|', 1)` when `'|' in key`: the text before the first bar
    and the text after it. *)
Fixpoint split_at_bar (key : pystr) : option (pystr * pystr) :=
  match key with
  | [] => None
  | c :: rest =>
      if bool_decide (c = "|"%char) then Some ([], rest)
      else (fun parts : pystr * pystr => (c :: parts.1, parts.2))
             <$> split_at_bar rest
  end.

(** `get_existing_jobs`: one pair for every key of the index that has a
    bar.  The order of `index.keys()` is that of [map_to_list]; the caller
    builds a set from the list. *)
Definition get_existing_jobs (st : Storage.Store) : list (pystr * pystr) :=
  omap split_at_bar (map fst (map_to_list (Storage.index st))).

End StorageQueries.

(** ** scrapers/__init__.py: collecting the sources *)

Module Aggregator.

(** `scrape_source(source_name)`: the jobs of the source, or nothing when
    the name is unknown or the scraper raises.  [scrapers] is the dictionary
    `self.scrapers`, in insertion order, with the outcome of each scraper's
    `scrape`. *)
Definition scrape_source (scrapers : list (pystr * Exc (list Job)))
    (source_name : pystr) : list Job :=
  match List.find (fun kv => bool_decide (kv.1 = source_name)) scrapers with
  | Some (_, Return jobs) => jobs
  | Some (_, Raise _) => []
  | None => []
  end.

(** Body of the inner loop; the state is `(all_jobs, seen_keys)`. *)
Definition collect_job (st : list Job * gset pystr) (job : Job)
    : list Job * gset pystr :=
  let key := Scrapers._job_key job in
  if bool_decide (key ∉ st.2) then (st.1 ++ [job], st.2 ∪ {[ key ]})
  else st.

(** The two loops, over the sources in the order [order]. *)
Definition collect (scrapers : list (pystr * Exc (list Job)))
    (order : list pystr) : list Job :=
  (foldl (fun st source_name =>
            foldl collect_job st (scrape_source scrapers source_name))
         ([], ∅) order).1.

(** `scrape_all(parallel=False)`: the sources in dictionary order. *)
Definition scrape_all (scrapers : list (pystr * Exc (list Job)))
    : list Job :=
  collect scrapers (map fst scrapers).

End Aggregator.

(** ** scrapers/base.py: the two filters of an adapter *)

Module Filters.

Definition AI_ML_KEYWORDS : list pystr :=
  [py "machine learning"; py "ml engineer"; py "ml "; py " ml";
   py "artificial intelligence"; py "ai engineer"; py "ai "; py " ai";
   py "deep learning"; py "neural network"; py "nlp"; py "natural language";
   py "computer vision"; py "data scientist"; py "data science";
   py "tensorflow"; py "pytorch"; py "llm"; py "large language model";
   py "generative ai"; py "gen ai"; py "mlops"; py "research scientist";
   py "research engineer"; py "applied scientist"; py "ml platform"].

(** `_is_ai_ml_job(title, description)` *)
Definition _is_ai_ml_job (title_ description_ : pystr) : bool :=
  let combined := lower (title_ ++ py " " ++ description_) in
  existsb (fun kw => contains kw combined) AI_ML_KEYWORDS.

(** `_matches_preferences(job)`, for the list `config.excluded_companies` *)
Definition _matches_preferences (excluded_companies : list pystr)
    (job : Job) : bool :=
  let c := lower (default [] (company job)) in
  negb (existsb (fun excluded => contains (lower excluded) c)
                excluded_companies).

End Filters.

(** ** llm/resume_matcher.py: the profile and `match_job` *)

Module MatchJob.

Import PyVal.

(** `MATCH_PROMPT.format(resume_summary=..., title=..., company=...,
    description=...)` *)
Definition MATCH_PROMPT (resume_summary title_ company_ description_ : pystr)
    : pystr :=
  py "You are a resume-job matcher. Compare the candidate's skills with the job requirements."
  ++ [nl; nl] ++ py "Candidate Profile:" ++ [nl]
  ++ resume_summary ++ [nl; nl]
  ++ py "Job Details:" ++ [nl]
  ++ py "- Title: " ++ title_ ++ [nl]
  ++ py "- Company: " ++ company_ ++ py "  " ++ [nl]
  ++ py "- Description: " ++ description_ ++ [nl; nl]
  ++ py "Analyze the match and respond with JSON only:" ++ [nl]
  ++ py "{" ++ [nl]
  ++ py "    " ++ quoted (py "match_score") ++ py ": <1-10>," ++ [nl]
  ++ py "    " ++ quoted (py "matching_skills") ++ py ": ["
  ++ quoted (py "skill1") ++ py ", " ++ quoted (py "skill2")
  ++ py ", ...]," ++ [nl]
  ++ py "    " ++ quoted (py "missing_skills") ++ py ": ["
  ++ quoted (py "skill1") ++ py ", " ++ quoted (py "skill2")
  ++ py ", ...]," ++ [nl]
  ++ py "    " ++ quoted (py "match_summary") ++ py ": "
  ++ quoted (py "<brief explanation>") ++ [nl]
  ++ py "}" ++ [nl].

(** `ResumeMatcher._call_ollama` *)
Definition _call_ollama (rt : Runtime) (model prompt : pystr)
    : option pystr :=
  match subprocess_run rt [py "ollama"; py "run"; model; prompt] with
  | Some (returncode, stdout) =>
      if returncode =? 0 then Some (strip stdout) else None
  | None => None
  end.

Definition json_block_pattern : pystr := py "\{[\s\S]*\}".

(** `d.get(k, default)` on the items of a dictionary *)
Definition dict_get (k : pystr) (d : JSON) (items : list (pystr * JSON))
    : JSON :=
  match List.find (fun kv => bool_decide (kv.1 = k)) items with
  | Some kv => kv.2
  | None => d
  end.

(** `d[k] = v`: the value of an existing key is replaced where it stands, a
    new key goes to the end. *)
Fixpoint dict_set (k : pystr) (v : JSON) (items : list (pystr * JSON))
    : list (pystr * JSON) :=
  match items with
  | [] => [(k, v)]
  | kv :: rest =>
      if bool_decide (kv.1 = k) then (k, v) :: rest
      else kv :: dict_set k v rest
  end.

(** What `match_job` returns: the dictionary decoded from the reply, with
    its `match_score` overwritten, or the dictionary of `_keyword_match`. *)
Inductive MatchOutcome :=
  | FromReply (items : list (pystr * JSON))
  | FromKeywords (r : Matcher.MatchResult).

(** `match_job(job)`; every exception of the reply path is caught and leads
    to `_keyword_match`. *)
Definition match_job (rt : Runtime) (model resume_text : pystr)
    (user_skills : gset pystr) (job : Job) : MatchOutcome :=
  let t := default (py "Unknown") (title job) in
  let c := default (py "Unknown") (company job) in
  let d := slice_to 600 (default [] (description job)) in
  let fallback := FromKeywords (Matcher._keyword_match rt user_skills job) in
  if truthy resume_text && (100 <? length resume_text)%nat then
    let prompt :=
      MATCH_PROMPT (slice_to 1000 resume_text) t c
                   (Scorer.str_or d (py "No description available")) in
    match _call_ollama rt model prompt with
    | Some response =>
        if truthy response then
          match re_search rt json_block_pattern false response with
          | Some m =>
              match json_loads rt (group0 m) with
              | Some (JObj items) =>
                  match py_int (dict_get (py "match_score") (JInt 5) items) with
                  | Return n =>
                      FromReply
                        (dict_set (py "match_score")
                                  (JInt (Z.max 1 (Z.min 10 n))) items)
                  | Raise _ => fallback
                  end
              | _ => fallback
              end
          | None => fallback
          end
        else fallback
    | None => fallback
    end
  else fallback.

(** `match_result.get('match_score', 0)`, as `process_jobs_with_ai` reads
    it from either dictionary. *)
Definition get_match_score (o : MatchOutcome) : JSON :=
  match o with
  | FromReply items => dict_get (py "match_score") (JInt 0) items
  | FromKeywords r => JInt (default 0 (Matcher.match_score r))
  end.

(** `d.get(k)` on the items of a dictionary, [None] for an absent key *)
Definition dict_lookup (k : pystr) (items : list (pystr * JSON))
    : option JSON :=
  snd <$> List.find (fun kv => bool_decide (kv.1 = k)) items.

(** The dictionary `match_job` returns, as the stage reads it. *)
Definition stage_dict (o : MatchOutcome) : Main.MatchDict :=
  match o with
  | FromReply items =>
      {| Main.match_score :=
           match dict_lookup (py "match_score") items with
           | Some (JInt n) => Some n
           | _ => None
           end;
         Main.matching_skills := dict_lookup (py "matching_skills") items;
         Main.missing_skills := dict_lookup (py "missing_skills") items |}
  | FromKeywords r => Main.of_keyword_match r
  end.

(** The state of a `ResumeMatcher`. *)
Record Profile := mkProfile {
  resume_text : pystr;
  user_skills : gset pystr
}.

(** `__init__`: `_load_resume` then `_load_user_skills`.  [resume] is the
    text of the resume file, [None] when there is no file or it cannot be
    read; [configured] is `config.user_skills`. *)
Definition init_profile (rt : Runtime) (resume : option pystr)
    (configured : list pystr) : Profile :=
  let from_resume :=
    match resume with
    | Some text => Matcher._extract_skills_from_text rt text
    | None => ∅
    end in
  {| resume_text := default [] resume;
     user_skills :=
       foldl (fun acc skill => acc ∪ {[ lower skill ]}) from_resume
             configured |}.

Definition add_skill (skill : pystr) (p : Profile) : Profile :=
  mkProfile (resume_text p) (user_skills p ∪ {[ lower skill ]}).

Definition remove_skill (skill : pystr) (p : Profile) : Profile :=
  mkProfile (resume_text p) (user_skills p ∖ {[ lower skill ]}).

End MatchJob.

(** ** main.py: storing the qualified jobs *)

Module Pipeline.

(** Step 4 of `main`: each qualified job is formatted and appended, and the
    appends that return true are counted; a job whose row cannot be formatted
    is logged by the `except` branch and passed over.  [clock i] is
    `datetime.now()` at the job of index [i]; [str_num] is `str()` on
    numbers. *)
Fixpoint store_from (str_num : Q -> pystr) (clock : nat -> Storage.Clock)
    (i : nat) (qualified_jobs : list Job) (acc : nat * Storage.Store)
    : nat * Storage.Store :=
  match qualified_jobs with
  | [] => acc
  | job :: rest =>
      match Utils.format_job_for_storage (Storage.today (clock i)) job with
      | Raise _ => store_from str_num clock (S i) rest acc
      | Return values =>
          let row_data := map (Utils.to_cell str_num) values in
          let r := Storage.append_job (clock i) row_data (Some job) acc.2 in
          store_from str_num clock (S i) rest
                     (if r.1 then S acc.1 else acc.1, r.2)
      end
  end.

Definition store_jobs (str_num : Q -> pystr) (clock : nat -> Storage.Clock)
    (qualified_jobs : list Job) (st : Storage.Store) : nat * Storage.Store :=
  store_from str_num clock 0 qualified_jobs (0%nat, st).

(** Steps 2 to 4 of `main` for the jobs of one scrape: deduplication against
    the store, scoring, storing.  The result is `stored_count` and the
    files; a run that ends early stores nothing. *)
Definition run (score_relevance : Job -> Exc Z)
    (match_job : Job -> Exc Main.MatchDict) (config : Main.Config)
    (str_num : Q -> pystr) (clock : nat -> Storage.Clock)
    (scraped_jobs : list Job) (st : Storage.Store) : nat * Storage.Store :=
  match scraped_jobs with
  | [] => (0%nat, st)
  | _ =>
      let existing_jobs := StorageQueries.get_existing_jobs st in
      let new_jobs := Helpers.deduplicate_jobs scraped_jobs existing_jobs in
      match new_jobs with
      | [] => (0%nat, st)
      | _ =>
          let qualified_jobs :=
            Main.process_jobs_with_ai score_relevance match_job config
                                      new_jobs in
          match qualified_jobs with
          | [] => (0%nat, st)
          | _ => store_jobs str_num clock qualified_jobs st
          end
      end
  end.

End Pipeline.

(** ** Vocabulary of the further properties *)

(** The delay slept after a failed attempt. *)
Definition backoff_delay (base_delay : Q) (attempt : nat) : Q :=
  (base_delay * inject_Z (2 ^ Z.of_nat attempt))%Q.

(** The sum of [f v] over the values of a dictionary. *)
Definition sum_with {V} (f : V -> Z) (m : gmap pystr V) : Z :=
  map_fold (fun _ v acc => f v + acc) 0 m.

(** A job dictionary whose matching skills `_update_analytics` can count:
    the entry is absent, or a list of strings, or another value whose items
    are strings. *)
Definition counted_skills (job_dict : option Job) : Prop :=
  forall j, job_dict = Some j ->
    exists skills,
      PyVal.iter_strs (default (JArr []) (matching_skills j)) = Return skills.

(** The stores a client can produce: the files as first created, and any
    store after one more call of `append_job` with a job dictionary whose
    matching skills can be counted. *)
Inductive reachable : Storage.Store -> Prop :=
  | reach_fresh : reachable Storage.fresh_store
  | reach_append now row_data job_dict st :
      counted_skills job_dict ->
      reachable st ->
      reachable (Storage.append_job now row_data job_dict st).2.

(** What the three files of a store agree on. *)
Record consistent (st : Storage.Store) : Prop := mkConsistent {
  cons_rows :
    length (Storage.csv_rows st) = S (size (Storage.index st));
  cons_row_width :
    Forall (fun row => length row = length Storage.HEADERS)
           (Storage.csv_rows st);
  cons_total :
    Storage.metadata_total_jobs st
    = Z.of_nat (length (Storage.json_jobs st));
  cons_jobs :
    (length (Storage.json_jobs st) <= size (Storage.index st))%nat;
  cons_keys :
    forall k, is_Some (Storage.index st !! k) ->
              exists t c, k = Storage._normalize_key t c;
  cons_sources :
    sum_with id (Storage.source_stats (Storage.analytics st))
    = Z.of_nat (size (Storage.index st));
  cons_days :
    sum_with Storage.count (Storage.daily_stats (Storage.analytics st))
    = Z.of_nat (size (Storage.index st))
}.

(** A string without the bar that separates the two sides of a key. *)
Definition no_bar (s : pystr) : Prop := Forall (fun c => c <> "|"%char) s.

(** The inner loop of `scrape_all`, read from the front of the jobs. *)
Fixpoint collect_from (seen : gset pystr) (jobs : list Job) : list Job :=
  match jobs with
  | [] => []
  | job :: rest =>
      let key := Scrapers._job_key job in
      if bool_decide (key ∉ seen)
      then job :: collect_from (seen ∪ {[ key ]}) rest
      else collect_from seen rest
  end.

(** The jobs the sources return, in the order the sources are read. *)
Definition scraped (scrapers : list (pystr * Exc (list Job)))
    (order : list pystr) : list Job :=
  concat (map (Aggregator.scrape_source scrapers) order).

(** The aggregator keys of a list of jobs. *)
Definition agg_keys (jobs : list Job) : gset pystr :=
  list_to_set (map Scrapers._job_key jobs).

(** Every keyword of [ks] has a keyword of [ks'] inside it. *)
Definition covered_by (ks ks' : list pystr) : bool :=
  forallb (fun k => existsb (fun k' => contains k' k) ks') ks.

(** The inference process gives no usable reply: the call fails or times
    out, exits with a non-zero code, or prints only whitespace. *)
Definition no_reply (rt : Runtime) : Prop :=
  forall args,
    match subprocess_run rt args with
    | None => True
    | Some (returncode, stdout) => returncode <> 0 \/ strip stdout = []
    end.

(** The inference process answers every prompt, and [response] is its
    output with the whitespace at both ends removed. *)
Definition replies_with (rt : Runtime) (response : pystr) : Prop :=
  forall args,
    exists stdout,
      subprocess_run rt args = Some (0, stdout) /\ strip stdout = response.

(** None of the four attempts of `_parse_llm_response` finds a score in
    [response]: it is not JSON, an object cut out of it is not JSON either,
    and it has neither a score field nor a number from 1 to 10. *)
Definition unparsable (rt : Runtime) (response : pystr) : Prop :=
  json_loads rt response = None
  /\ (forall m,
        re_search rt Scorer.json_object_pattern true response = Some m ->
        json_loads rt (group0 m) = None)
  /\ re_search rt Scorer.score_field_pattern false response = None
  /\ re_findall rt Scorer.number_pattern response = [].

(** A runtime whose inference process answers every prompt with [reply],
    which `json.loads` decodes to [decoded], if to anything; no pattern of
    `re` matches. *)
Definition replying (reply : pystr) (decoded : option JSON) : Runtime :=
  mkRuntime (fun _ => Some (0, reply)) (fun _ => decoded)
            (fun _ _ _ => None) (fun _ _ => []).

(** The patterns of the skill dictionary, over all categories. *)
Definition all_patterns : list pystr :=
  concat (map snd Matcher.SKILL_PATTERNS).

(** A profile whose skills are all in lower case. *)
Definition lowercase_skills (skills : gset pystr) : Prop :=
  forall s, s ∈ skills -> lower s = s.

(** The verdict of the stage on one job, taken alone: the job with its
    scores when it is accepted, [None] when it is dropped. *)
Definition verdict (score_relevance : Job -> Exc Z)
    (match_job : Job -> Exc Main.MatchDict) (config : Main.Config)
    (job : Job) : option Job :=
  head (Main.processed_jobs
          (Main.process_job score_relevance match_job config
                            (Main.mkLoopState [] []) job)).

(** [a] may stand before [b] in the ranking. *)
Definition ranked_before (a b : Job) : Prop :=
  (Main.sort_key b <= Main.sort_key a)%Q.

(** The jobs of a list whose sort key is [q], in their order. *)
Definition with_key (q : Q) (l : list Job) : list Job :=
  List.filter (fun j => Qeq_bool (Main.sort_key j) q) l.

(** The key under which the store records a job formatted by
    `format_job_for_storage`: absent titles and companies are `'Unknown'`. *)
Definition store_key (job : Job) : pystr :=
  Storage._normalize_key (default (py "Unknown") (title job))
                         (default (py "Unknown") (company job)).

(** `format_job_for_storage(job)` returns: each of the two skill entries
    can be sliced and its first five items joined. *)
Definition formattable (job : Job) : bool :=
  match Utils.first_five (default (JArr []) (matching_skills job)),
        Utils.first_five (default (JArr []) (missing_skills job)) with
  | Return _, Return _ => true
  | _, _ => false
  end.

(** Every key of the index is what `deduplicate_jobs` computes again from
    its two sides. *)
Definition renormalized (st : Storage.Store) : Prop :=
  forall k a b,
    is_Some (Storage.index st !! k) ->
    StorageQueries.split_at_bar k = Some (a, b) ->
    Helpers._normalize_job_key a b = k.

(** * Vocabulary of the properties *)

Definition nonspace (c : ascii) : Prop := isspace c = false.

(** A word as `split` yields it: not empty, no whitespace inside. *)
Definition word (w : pystr) : Prop := w <> [] /\ Forall nonspace w.

(** What every character of a normalized field satisfies. *)
Definition clean (c : ascii) : Prop :=
  Helpers.keep c = true /\ lower_char c = c.

(** One elementary difference between two titles (or companies), for the
    cross-run key: the case of a letter, a character that is neither
    alphanumeric nor whitespace, a whitespace character at either end, the
    length of an inner run of whitespace, the kind of a whitespace
    character. *)
Inductive variant_step : pystr -> pystr -> Prop :=
  | vs_case a c c' b :
      lower_char c = lower_char c' -> variant_step (a ++ c :: b) (a ++ c' :: b)
  | vs_punct a c b :
      Helpers.keep c = false -> variant_step (a ++ c :: b) (a ++ b)
  | vs_lead c s : isspace c = true -> variant_step (c :: s) s
  | vs_trail c s : isspace c = true -> variant_step (s ++ [c]) s
  | vs_run a c d b :
      isspace c = true -> isspace d = true ->
      variant_step (a ++ c :: d :: b) (a ++ d :: b)
  | vs_kind a c d b :
      isspace c = true -> isspace d = true ->
      variant_step (a ++ c :: b) (a ++ d :: b).

Definition variant : pystr -> pystr -> Prop := rtsc variant_step.

(** The differences the aggregator key absorbs: the case of a letter, a
    whitespace character at either end, and a character that is neither
    alphanumeric nor whitespace standing between two non-whitespace
    characters. *)
Inductive agg_step : pystr -> pystr -> Prop :=
  | as_case a c c' b :
      lower_char c = lower_char c' -> agg_step (a ++ c :: b) (a ++ c' :: b)
  | as_lead c s : isspace c = true -> agg_step (c :: s) s
  | as_trail c s : isspace c = true -> agg_step (s ++ [c]) s
  | as_punct a x c y b :
      isspace x = false -> isspace y = false -> Helpers.keep c = false ->
      agg_step (a ++ x :: c :: y :: b) (a ++ x :: y :: b).

Definition agg_variant : pystr -> pystr -> Prop := rtsc agg_step.

(** One side of the aggregator key. *)
Definition agg_side (s : pystr) : pystr :=
  List.filter Helpers.keep (strip (lower s)).

(** The second loop of `deduplicate_jobs`, read from the front of the list. *)
Fixpoint dedup_from (ek seen : gset pystr) (jobs : list Job) : list Job :=
  match jobs with
  | [] => []
  | job :: rest =>
      let key := Helpers.dedup_key job in
      if bool_decide (key ∉ ek) && bool_decide (key ∉ seen)
      then job :: dedup_from ek (seen ∪ {[ key ]}) rest
      else dedup_from ek seen rest
  end.

(** The number of jobs of a list that carry a key. *)
Definition key_count (k : pystr) (jobs : list Job) : nat :=
  length (filter (fun j => Helpers.dedup_key j = k) jobs).

(** The row and the job of the module's self-test, appended twice to the
    files as they are first created. *)
Definition test_row : list Storage.Cell :=
  map Storage.CStr
      [py "2024-01-15"; py "ML Engineer"; py "TestCo"; py "Remote";
       py "https://example.com"; py "Test"]
  ++ map Storage.COther [py "9"; py "7"; py "8"]
  ++ map Storage.CStr
       [py "New"; py "python, pytorch"; py "kubernetes"; []; py "remote"].

Definition test_clock : Storage.Clock :=
  Storage.mkClock (py "2024-01-15T09:00:00") (py "2024-01-15").

(** [kw] occurs in [text]. *)
Definition occurs_in (kw text : pystr) : Prop :=
  exists pre post, text = pre ++ kw ++ post.

(** Some keyword of [kws] occurs in [text]. *)
Definition matches (kws : list pystr) (text : pystr) : Prop :=
  exists kw, kw ∈ kws /\ occurs_in kw text.

(** `clamp(lo, hi, x)` *)
Definition clamp (lo hi x : Z) : Z := Z.max lo (Z.min hi x).

(** The score in the words of the specification:
    clamp(1, 10, floor(overlapRatio * 10) + 2) with
    overlapRatio = |matching| / |jobSkills|, and 5 when the job has no
    skills. *)
Definition spec_fallback_match_score (n_matching n_job : nat) : Z :=
  match n_job with
  | O => 5
  | S _ =>
      let overlapRatio := Qmake (Z.of_nat n_matching) (Pos.of_nat n_job) in
      clamp 1 10 (Qfloor (overlapRatio * 10)%Q + 2)
  end.

(** A runtime without inference process and in which no pattern matches. *)
Definition offline : Runtime :=
  mkRuntime (fun _ => None) (fun _ => None) (fun _ _ _ => None)
            (fun _ _ => []).

(** A posting that lists three skills. *)
Definition listed_skills_job : Job :=
  mkJob (Some (py "Engineer")) (Some (py "Acme")) None None None None
        (Some (py "Builds things")) None None None
        (Some [py "Python"; py "PyTorch"; py "AWS"]) None
        None None None None None None None.

(** The reply `{"score": "high"}`. *)
Definition non_numeric_reply : pystr :=
  py "{" ++ PyVal.quoted (py "score") ++ py ": " ++ PyVal.quoted (py "high") ++ py "}".

(** What `json.loads` returns for it. *)
Definition non_numeric_dict : JSON := JObj [(py "score", JStr (py "high"))].

(** A runtime whose inference process answers every prompt with that reply,
    and whose `json.loads` decodes it. *)
Definition non_numeric_runtime : Runtime :=
  mkRuntime
    (fun _ => Some (0, non_numeric_reply))
    (fun s => if bool_decide (s = non_numeric_reply)
              then Some non_numeric_dict else None)
    (fun _ _ _ => None)
    (fun _ _ => []).

(** A reply of the model to the match prompt that holds `null` under
    `matching_skills`, and a runtime that gives it: `re.search` finds the
    whole reply and `json.loads` decodes it. *)
Definition null_skills_dict : list (pystr * JSON) :=
  [(py "match_score", JInt 8); (py "matching_skills", JNull);
   (py "missing_skills", JArr [JStr (py "kubernetes")])].

Definition null_skills_runtime : Runtime :=
  mkRuntime (fun _ => Some (0, py "{...}"))
            (fun _ => Some (JObj null_skills_dict))
            (fun _ _ text => Some (mkMatch text []))
            (fun _ _ => []).

(** Test doubles: a scorer with a fixed answer, a matcher with a fixed
    match score, and a matcher that fails when it is called. *)
Definition fixed_scorer (r : Z) : Job -> Exc Z := fun _ => Return r.

Definition fixed_matcher (m : Z) : Job -> Exc Main.MatchDict :=
  fun _ => Return (Main.mkMatchDict (Some m) (Some (JArr [])) (Some (JArr []))).

Definition failing_matcher : Job -> Exc Main.MatchDict :=
  fun _ => Raise TypeError.

(** * Properties *)

(** ** Character classes *)

Section CharClasses.

Lemma lower_char_idem c : lower_char (lower_char c) = lower_char c.
Proof. destruct c as [[] [] [] [] [] [] [] []]; reflexivity. Qed.

Lemma isspace_lower_char c : isspace (lower_char c) = isspace c.
Proof. destruct c as [[] [] [] [] [] [] [] []]; reflexivity. Qed.

Lemma isalnum_lower_char c : isalnum (lower_char c) = isalnum c.
Proof. destruct c as [[] [] [] [] [] [] [] []]; reflexivity. Qed.

Lemma keep_lower_char c : Helpers.keep (lower_char c) = Helpers.keep c.
Proof.
  unfold Helpers.keep. by rewrite isalnum_lower_char, isspace_lower_char.
Qed.

Lemma keep_same_lower c c' :
  lower_char c = lower_char c' -> Helpers.keep c = Helpers.keep c'.
Proof.
  intros H. rewrite <- (keep_lower_char c), <- (keep_lower_char c'). by rewrite H.
Qed.

Lemma isspace_keep c : isspace c = true -> Helpers.keep c = true.
Proof. unfold Helpers.keep. intros ->. apply orb_true_r. Qed.

Lemma lower_idem s : lower (lower s) = lower s.
Proof.
  unfold lower. rewrite map_map. apply map_ext. intros; apply lower_char_idem.
Qed.

End CharClasses.

(** ** `split` and `join` *)

Section SplitJoin.

(** Two suffixes that `split_go` cannot tell apart stay so under any prefix. *)
Lemma split_go_prefix x y :
  (forall cur, split_go cur x = split_go cur y) ->
  forall a cur, split_go cur (a ++ x) = split_go cur (a ++ y).
Proof.
  intros Hxy a. induction a as [|c a IH]; intros cur; simpl; [apply Hxy|].
  destruct (isspace c); [by rewrite IH | apply IH].
Qed.

Lemma split_go_space_run c d r cur :
  isspace c = true -> isspace d = true ->
  split_go cur (c :: d :: r) = split_go cur (d :: r).
Proof.
  intros Hc Hd. simpl. rewrite Hc, Hd. simpl.
  by destruct cur.
Qed.

Lemma split_go_space_kind c d r cur :
  isspace c = true -> isspace d = true ->
  split_go cur (c :: r) = split_go cur (d :: r).
Proof. intros Hc Hd. simpl. by rewrite Hc, Hd. Qed.

Lemma split_go_trailing c s cur :
  isspace c = true -> split_go cur (s ++ [c]) = split_go cur s.
Proof.
  intros Hc. revert cur. induction s as [|x s IH]; intros cur; simpl.
  - rewrite Hc. by rewrite app_nil_r.
  - destruct (isspace x); [by rewrite IH | apply IH].
Qed.

Lemma split_leading c s : isspace c = true -> split (c :: s) = split s.
Proof. intros Hc. unfold split. simpl. by rewrite Hc. Qed.

End SplitJoin.

Section Words.

Lemma flush_Forall (R : pystr -> Prop) cur :
  (cur <> [] -> R cur) -> Forall R (flush cur).
Proof.
  intros H. destruct cur as [|c cur]; simpl; [constructor|].
  constructor; [by apply H | constructor].
Qed.

Lemma split_go_words s : forall cur,
  Forall nonspace cur -> Forall word (split_go cur s).
Proof.
  induction s as [|c s IH]; intros cur Hcur; simpl.
  - apply flush_Forall. by split.
  - destruct (isspace c) eqn:Hc.
    + apply Forall_app. split; [|apply IH; constructor].
      apply flush_Forall. by split.
    + apply IH. apply Forall_app. split; [done|]. by repeat constructor.
Qed.

Lemma split_go_chars (P : ascii -> Prop) s : forall cur,
  Forall P cur -> Forall P s -> Forall (Forall P) (split_go cur s).
Proof.
  induction s as [|c s IH]; intros cur Hcur Hs; simpl.
  - by apply flush_Forall.
  - inversion Hs; subst. destruct (isspace c).
    + apply Forall_app. split; [|apply IH; [constructor | done]].
      by apply flush_Forall.
    + apply IH; [|done]. apply Forall_app. split; [done|]. by repeat constructor.
Qed.

Lemma join_chars (P : ascii -> Prop) sep ws :
  Forall P sep -> Forall (Forall P) ws -> Forall P (join sep ws).
Proof.
  intros Hsep. induction ws as [|p ws IH]; intros Hws; [constructor|].
  inversion Hws; subst. destruct ws as [|q ws]; [done|].
  change (Forall P (p ++ sep ++ join sep (q :: ws))).
  rewrite !Forall_app. auto.
Qed.

Lemma split_go_word w r : forall cur,
  Forall nonspace w -> split_go cur (w ++ r) = split_go (cur ++ w) r.
Proof.
  induction w as [|c w IH]; intros cur Hw; simpl.
  - by rewrite app_nil_r.
  - inversion Hw as [|? ? Hc Hw']; subst. unfold nonspace in Hc. rewrite Hc.
    rewrite IH by done. by rewrite <- app_assoc.
Qed.

Lemma flush_nonempty cur w : w <> [] -> flush (cur ++ w) = [cur ++ w].
Proof. intros Hw. destruct cur, w; done. Qed.

Lemma split_go_join p ws : forall cur,
  Forall word (p :: ws) ->
  split_go cur (join (py " ") (p :: ws)) = (cur ++ p) :: ws.
Proof.
  revert p. induction ws as [|q ws IH]; intros p cur Hws.
  - inversion Hws as [|? ? [Hne Hp] _]; subst. simpl.
    rewrite <- (app_nil_r p) at 1. rewrite split_go_word by done.
    simpl. by apply flush_nonempty.
  - inversion Hws as [|? ? [Hne Hp] Hrest]; subst.
    change (join (py " ") (p :: q :: ws))
      with (p ++ " "%char :: join (py " ") (q :: ws)).
    rewrite split_go_word by done.
    change (split_go (cur ++ p) (" "%char :: join (py " ") (q :: ws)))
      with (flush (cur ++ p) ++ split_go [] (join (py " ") (q :: ws))).
    rewrite flush_nonempty by done.
    rewrite (IH q []) by done. done.
Qed.

Lemma split_join ws : Forall word ws -> split (join (py " ") ws) = ws.
Proof.
  destruct ws as [|p ws]; [done|]. intros H. unfold split.
  by rewrite split_go_join.
Qed.

Lemma filter_all (f : ascii -> bool) l :
  Forall (fun c => f c = true) l -> List.filter f l = l.
Proof.
  induction 1 as [|c l Hc _ IH]; simpl; [done|]. by rewrite Hc, IH.
Qed.

Lemma map_fixed (f : ascii -> ascii) l :
  Forall (fun c => f c = c) l -> map f l = l.
Proof.
  induction 1 as [|c l Hc _ IH]; simpl; [done|]. by rewrite Hc, IH.
Qed.

Lemma clean_filtered s :
  Forall clean (map lower_char (List.filter Helpers.keep s)).
Proof.
  induction s as [|c s IH]; simpl; [constructor|].
  destruct (Helpers.keep c) eqn:Hc; [|done]. simpl. constructor; [|done].
  split; [by rewrite keep_lower_char | apply lower_char_idem].
Qed.

Lemma normalized_clean s : Forall clean (Helpers.normalized s).
Proof.
  unfold Helpers.normalized. apply join_chars.
  - by repeat constructor.
  - apply split_go_chars; [constructor | apply clean_filtered].
Qed.

Lemma normalized_idem s :
  Helpers.normalized (Helpers.normalized s) = Helpers.normalized s.
Proof.
  unfold Helpers.normalized at 1.
  rewrite filter_all, map_fixed.
  - unfold Helpers.normalized. rewrite split_join; [done|].
    apply split_go_words. constructor.
  - eapply Forall_impl; [apply normalized_clean|]. by intros c [_ ?].
  - eapply Forall_impl; [apply normalized_clean|]. by intros c [? _].
Qed.

End Words.

(** ** Strings that differ only in case, whitespace or punctuation *)

Section Variants.

Lemma rtsc_image {A B} (R : relation A) (f : A -> B) x y :
  (forall x y, R x y -> f x = f y) -> rtsc R x y -> f x = f y.
Proof.
  intros Hf H. induction H as [|x y z [Hxy | Hyx] _ IH]; [done| |].
  - by rewrite (Hf _ _ Hxy).
  - by rewrite <- (Hf _ _ Hyx).
Qed.

(** The filtered and lower-cased text that `split` is applied to. *)
Lemma filtered_app a b :
  map lower_char (List.filter Helpers.keep (a ++ b))
  = map lower_char (List.filter Helpers.keep a)
    ++ map lower_char (List.filter Helpers.keep b).
Proof. by rewrite List.filter_app, map_app. Qed.

Lemma filtered_space c s :
  isspace c = true ->
  map lower_char (List.filter Helpers.keep (c :: s))
  = lower_char c :: map lower_char (List.filter Helpers.keep s).
Proof. intros Hc. simpl. by rewrite (isspace_keep c Hc). Qed.

Lemma normalized_step s t :
  variant_step s t -> Helpers.normalized s = Helpers.normalized t.
Proof.
  unfold Helpers.normalized, split.
  destruct 1 as [a c c' b Hcc|a c b Hc|c s Hc|c s Hc|a c d b Hc Hd|a c d b Hc Hd];
    f_equal.
  - rewrite !filtered_app. simpl.
    rewrite (keep_same_lower _ _ Hcc). destruct (Helpers.keep c'); [|done].
    simpl. by rewrite Hcc.
  - rewrite !filtered_app. simpl. by rewrite Hc.
  - rewrite filtered_space by done. simpl.
    by rewrite isspace_lower_char, Hc.
  - rewrite filtered_app, filtered_space by done. simpl.
    apply split_go_trailing. by rewrite isspace_lower_char.
  - rewrite !filtered_app. apply split_go_prefix. intros cur.
    rewrite !filtered_space by done.
    apply split_go_space_run; by rewrite isspace_lower_char.
  - rewrite !filtered_app. apply split_go_prefix. intros cur.
    rewrite !filtered_space by done.
    apply split_go_space_kind; by rewrite isspace_lower_char.
Qed.

Lemma normalized_variant s t :
  variant s t -> Helpers.normalized s = Helpers.normalized t.
Proof. apply rtsc_image, normalized_step. Qed.

Lemma _normalize_key_eq t c :
  Storage._normalize_key t c = Helpers._normalize_job_key t c.
Proof. reflexivity. Qed.

End Variants.

(** ** `strip` *)

Section Strip.

Lemma lstrip_nonspace a x r :
  isspace x = false -> lstrip (a ++ x :: r) = lstrip (a ++ [x]) ++ r.
Proof.
  intros Hx. induction a as [|c a IH]; simpl.
  - by rewrite Hx.
  - destruct (isspace c); [done|]. simpl. by rewrite <- app_assoc.
Qed.

Lemma rstrip_nonspace l y b :
  isspace y = false -> rstrip (l ++ y :: b) = l ++ rstrip (y :: b).
Proof.
  intros Hy. unfold rstrip. rewrite rev_app_distr. simpl.
  rewrite <- app_assoc. simpl. rewrite lstrip_nonspace by done.
  by rewrite rev_app_distr, rev_involutive.
Qed.

Lemma strip_inner a x m y b :
  isspace x = false -> isspace y = false ->
  strip (a ++ x :: m ++ y :: b) = lstrip (a ++ [x]) ++ m ++ rstrip (y :: b).
Proof.
  intros Hx Hy. unfold strip. rewrite lstrip_nonspace by done.
  rewrite app_assoc, rstrip_nonspace by done. by rewrite <- app_assoc.
Qed.

Lemma rstrip_snoc_space t w : isspace w = true -> rstrip (t ++ [w]) = rstrip t.
Proof.
  intros Hw. unfold rstrip. rewrite rev_app_distr. simpl. by rewrite Hw.
Qed.

Lemma lstrip_snoc_space s w :
  isspace w = true ->
  lstrip (s ++ [w]) = match lstrip s with [] => [] | _ => lstrip s ++ [w] end.
Proof.
  intros Hw. induction s as [|c s IH]; simpl.
  - by rewrite Hw.
  - destruct (isspace c); [done|]. done.
Qed.

Lemma strip_leading w s : isspace w = true -> strip (w :: s) = strip s.
Proof. intros Hw. unfold strip. simpl. by rewrite Hw. Qed.

Lemma strip_trailing w s : isspace w = true -> strip (s ++ [w]) = strip s.
Proof.
  intros Hw. unfold strip. rewrite lstrip_snoc_space by done.
  destruct (lstrip s) as [|c t] eqn:E; [done|].
  by rewrite rstrip_snoc_space.
Qed.

Lemma _job_key_sides job :
  Scrapers._job_key job
  = agg_side (default [] (title job)) ++ py "|"
    ++ agg_side (default [] (company job)).
Proof. reflexivity. Qed.

Lemma agg_side_step s t : agg_step s t -> agg_side s = agg_side t.
Proof.
  unfold agg_side, lower.
  destruct 1 as [a c c' b Hcc|c s Hc|c s Hc|a x c y b Hx Hy Hc].
  - rewrite !map_app. simpl. by rewrite Hcc.
  - simpl. rewrite strip_leading; [done|]. by rewrite isspace_lower_char.
  - rewrite map_app. simpl. rewrite strip_trailing; [done|].
    by rewrite isspace_lower_char.
  - rewrite !map_app. simpl.
    pose proof (strip_inner (map lower_char a) (lower_char x) [lower_char c]
                  (lower_char y) (map lower_char b)) as H1.
    pose proof (strip_inner (map lower_char a) (lower_char x) []
                  (lower_char y) (map lower_char b)) as H0.
    simpl in H1, H0. rewrite H1, H0 by (by rewrite isspace_lower_char).
    rewrite !List.filter_app. simpl. by rewrite keep_lower_char, Hc.
Qed.

Lemma agg_side_variant s t : agg_variant s t -> agg_side s = agg_side t.
Proof. apply rtsc_image, agg_side_step. Qed.

End Strip.

(** ** Identity keys (C3) *)

Section IdentityKey.

Lemma variant_case_under a s : forall s',
  lower s = lower s' -> variant (a ++ s) (a ++ s').
Proof.
  revert a. induction s as [|c s IH]; intros a [|c' s'] H; try done.
  injection H as Hc Hs.
  transitivity (a ++ c' :: s).
  - apply rtsc_lr. by constructor.
  - specialize (IH (a ++ [c']) s' Hs). by rewrite <- !app_assoc in IH.
Qed.

Lemma variant_case s s' : lower s = lower s' -> variant s s'.
Proof. apply (variant_case_under []). Qed.

Lemma agg_variant_case_under a s : forall s',
  lower s = lower s' -> agg_variant (a ++ s) (a ++ s').
Proof.
  revert a. induction s as [|c s IH]; intros a [|c' s'] H; try done.
  injection H as Hc Hs.
  transitivity (a ++ c' :: s).
  - apply rtsc_lr. by constructor.
  - specialize (IH (a ++ [c']) s' Hs). by rewrite <- !app_assoc in IH.
Qed.

Lemma agg_variant_case s s' : lower s = lower s' -> agg_variant s s'.
Proof. apply (agg_variant_case_under []). Qed.

(** The two titles and the two companies of the specification's example. *)
Lemma example_title_variant : variant (py " ML Engineer ") (py "ml engineer").
Proof.
  transitivity (py "ML Engineer ").
  { apply rtsc_lr. by apply (vs_lead " "%char). }
  transitivity (py "ML Engineer").
  { apply rtsc_lr. by apply (vs_trail " "%char (py "ML Engineer")). }
  by apply variant_case.
Defined.

Lemma example_company_variant : variant (py "Tech-Co") (py "techco").
Proof.
  transitivity (py "TechCo").
  { apply rtsc_lr. by apply (vs_punct (py "Tech") "-"%char (py "Co")). }
  by apply variant_case.
Defined.

Lemma example_title_agg_variant :
  agg_variant (py " ML Engineer ") (py "ml engineer").
Proof.
  transitivity (py "ML Engineer ").
  { apply rtsc_lr. by apply (as_lead " "%char). }
  transitivity (py "ML Engineer").
  { apply rtsc_lr. by apply (as_trail " "%char (py "ML Engineer")). }
  by apply agg_variant_case.
Defined.

Lemma example_company_agg_variant : agg_variant (py "Tech-Co") (py "techco").
Proof.
  transitivity (py "TechCo").
  { apply rtsc_lr.
    by apply (as_punct (py "Tec") "h"%char "-"%char "C"%char (py "o")). }
  by apply agg_variant_case.
Defined.

(** What holds of the identity keys.  For titles and companies that differ
    only in case, in characters that are neither alphanumeric nor
    whitespace, and in whitespace (at the ends, in the length of an inner
    run, in the kind of whitespace character), the cross-run key of
    `deduplicate_jobs` and the key of the store are the same, and
    normalizing an already normalized title and company changes nothing.
    The within-batch key of the aggregator is the same for titles and
    companies that differ only in case, in whitespace at the ends, and in
    such characters standing between two non-whitespace characters. *)
Theorem identity_key_normalization (j j' : Job) :
  let t := default [] (title j) in
  let t' := default [] (title j') in
  let c := default [] (company j) in
  let c' := default [] (company j') in
  variant t t' -> variant c c' ->
  Helpers.dedup_key j = Helpers.dedup_key j'
  /\ Storage._normalize_key t c = Storage._normalize_key t' c'
  /\ Helpers._normalize_job_key (Helpers.normalized t) (Helpers.normalized c)
     = Helpers._normalize_job_key t c
  /\ (agg_variant t t' -> agg_variant c c' ->
      Scrapers._job_key j = Scrapers._job_key j').
Proof.
  intros t t' c c' Ht Hc.
  assert (Helpers._normalize_job_key t c = Helpers._normalize_job_key t' c')
    as Hkey.
  { unfold Helpers._normalize_job_key.
    by rewrite (normalized_variant _ _ Ht), (normalized_variant _ _ Hc). }
  repeat split.
  - exact Hkey.
  - by rewrite !_normalize_key_eq.
  - unfold Helpers._normalize_job_key. by rewrite !normalized_idem.
  - intros Hat Hac. rewrite !_job_key_sides. fold t t' c c'.
    by rewrite (agg_side_variant _ _ Hat), (agg_side_variant _ _ Hac).
Qed.

(** The example of the specification, for both keys. *)
Lemma identity_key_normalization_witness :
  Helpers.dedup_key (posting " ML Engineer " "Tech-Co")
  = Helpers.dedup_key (posting "ml engineer" "techco")
  /\ Scrapers._job_key (posting " ML Engineer " "Tech-Co")
     = Scrapers._job_key (posting "ml engineer" "techco").
Proof.
  destruct (identity_key_normalization
              (posting " ML Engineer " "Tech-Co")
              (posting "ml engineer" "techco")
              example_title_variant example_company_variant)
    as (Hkey & _ & _ & Hagg).
  split; [exact Hkey|].
  apply Hagg; [exact example_title_agg_variant
              | exact example_company_agg_variant].
Defined.

(** C3 at two titles that differ only in the length of an inner run of
    whitespace: the cross-run key is the same, as the specification says, but the
    aggregator key, which never collapses inner whitespace, differs. *)
Lemma aggregator_key_keeps_inner_whitespace :
  let j := posting "ML  Engineer" "Acme" in
  let j' := posting "ML Engineer" "Acme" in
  variant (py "ML  Engineer") (py "ML Engineer")
  /\ Helpers.dedup_key j = Helpers.dedup_key j'
  /\ Scrapers._job_key j = py "ml  engineer|acme"
  /\ Scrapers._job_key j' = py "ml engineer|acme"
  /\ Scrapers._job_key j <> Scrapers._job_key j'.
Proof.
  repeat split.
  - apply rtsc_lr.
    by apply (vs_run (py "ML") " "%char " "%char (py "Engineer")).
  - intros H. vm_compute in H. discriminate H.
Qed.

End IdentityKey.

(** ** Deduplication (C4, C10) *)

Section Deduplication.

Import Helpers.

Lemma foldl_dedup_step ek jobs : forall unique seen,
  (foldl (dedup_step ek) (unique, seen) jobs).1
  = unique ++ dedup_from ek seen jobs.
Proof.
  induction jobs as [|job rest IH]; intros unique seen; simpl.
  - by rewrite app_nil_r.
  - unfold dedup_step at 2. simpl.
    destruct (bool_decide (dedup_key job ∉ ek) && bool_decide (dedup_key job ∉ seen)).
    + rewrite IH. by rewrite <- app_assoc.
    + apply IH.
Qed.

Lemma deduplicate_jobs_from new_jobs existing_jobs :
  deduplicate_jobs new_jobs existing_jobs
  = dedup_from (existing_keys_of existing_jobs) ∅ new_jobs.
Proof. unfold deduplicate_jobs. by rewrite foldl_dedup_step. Qed.

Lemma foldl_existing_keys existing : forall (acc : gset pystr) k,
  k ∈ foldl (fun keys (tc : pystr * pystr) =>
               keys ∪ {[ _normalize_job_key tc.1 tc.2 ]}) acc existing
  <-> k ∈ acc \/ exists t c, (t, c) ∈ existing /\ k = _normalize_job_key t c.
Proof.
  induction existing as [|[t c] existing IH]; intros acc k; simpl.
  - split; [by left|]. intros [?|(t & c & H & _)]; [done|]. by inversion H.
  - rewrite IH. rewrite elem_of_union, elem_of_singleton. split.
    + intros [[?| ->]|(t' & c' & H & ->)].
      * by left.
      * right. exists t, c. split; [constructor | done].
      * right. exists t', c'. split; [by constructor | done].
    + intros [?|(t' & c' & H & ->)]; [by left; left|].
      inversion H; subst; [by left; right|]. right. by exists t', c'.
Qed.

(** The keys of the stored pairs. *)
Lemma elem_of_existing_keys existing k :
  k ∈ existing_keys_of existing
  <-> exists t c, (t, c) ∈ existing /\ k = _normalize_job_key t c.
Proof.
  unfold existing_keys_of. rewrite foldl_existing_keys. split; [|by right].
  intros [H|H]; [|done]. by apply not_elem_of_empty in H.
Qed.

Lemma dedup_from_elem ek jobs : forall seen j,
  j ∈ dedup_from ek seen jobs ->
  j ∈ jobs /\ (dedup_key j ∉ ek) /\ (dedup_key j ∉ seen).
Proof.
  induction jobs as [|job rest IH]; intros seen j; simpl.
  - by intros ?%elem_of_nil.
  - destruct (bool_decide (dedup_key job ∉ ek)) eqn:E1;
      destruct (bool_decide (dedup_key job ∉ seen)) eqn:E2; simpl; intros H;
      try (apply IH in H as (? & ? & ?); split; [by constructor | done]).
    apply bool_decide_eq_true in E1, E2.
    apply elem_of_cons in H as [ -> |H].
    + split; [constructor | done].
    + apply IH in H as (? & ? & Hs). split; [by constructor|].
      split; [done|]. set_solver.
Qed.

Lemma key_count_elem j jobs : j ∈ jobs -> (1 <= key_count (dedup_key j) jobs)%nat.
Proof.
  unfold key_count. induction 1 as [j rest|j j0 rest _ IH].
  - rewrite filter_cons_True by done. simpl. lia.
  - rewrite filter_cons. destruct (decide _); simpl; lia.
Qed.

Lemma dedup_from_keeps_unique ek jobs : forall seen j,
  j ∈ jobs -> key_count (dedup_key j) jobs = 1%nat ->
  dedup_key j ∉ ek -> dedup_key j ∉ seen ->
  j ∈ dedup_from ek seen jobs.
Proof.
  induction jobs as [|job rest IH]; intros seen j Hin Hcount Hek Hseen.
  - by apply elem_of_nil in Hin.
  - simpl. apply elem_of_cons in Hin as [ -> |Hin].
    + rewrite !bool_decide_eq_true_2 by done. simpl. constructor.
    + assert (dedup_key job <> dedup_key j) as Hne.
      { intros Heq. pose proof (key_count_elem _ _ Hin) as H1.
        unfold key_count in Hcount, H1.
        rewrite filter_cons_True in Hcount by done. simpl in Hcount. lia. }
      assert (key_count (dedup_key j) rest = 1%nat) as Hrest.
      { unfold key_count in *. by rewrite filter_cons_False in Hcount. }
      destruct (_ && _).
      * apply elem_of_cons. right. apply IH; try done. set_solver.
      * by apply IH.
Qed.

Lemma dedup_from_sublist ek jobs : forall seen,
  sublist (dedup_from ek seen jobs) jobs.
Proof.
  induction jobs as [|job rest IH]; intros seen; simpl; [constructor|].
  destruct (_ && _); [apply sublist_skip | apply sublist_cons]; apply IH.
Qed.

Lemma dedup_cond (ek seen : gset pystr) k :
  bool_decide (k ∉ ek) && bool_decide (k ∉ seen)
  = bool_decide (~ (k ∈ ek \/ k ∈ seen)).
Proof. repeat case_bool_decide; simpl; try done; tauto. Qed.

Lemma dedup_from_first ek jobs : forall seen k,
  filter (fun j => dedup_key j = k) (dedup_from ek seen jobs)
  = if decide (k ∈ ek \/ k ∈ seen) then []
    else take 1 (filter (fun j => dedup_key j = k) jobs).
Proof.
  induction jobs as [|job rest IH]; intros seen k; simpl.
  - by destruct (decide _).
  - rewrite dedup_cond.
    destruct (decide (dedup_key job ∈ ek \/ dedup_key job ∈ seen)) as [Hin|Hout].
    + rewrite bool_decide_eq_false_2 by tauto. rewrite IH.
      destruct (decide (dedup_key job = k)) as [Heq|Hne].
      * subst k. by rewrite !decide_True.
      * by rewrite filter_cons_False by done.
    + rewrite bool_decide_eq_true_2 by done.
      destruct (decide (dedup_key job = k)) as [Heq|Hne].
      * rewrite !filter_cons_True by done. rewrite IH. subst k.
        rewrite decide_True by set_solver. by rewrite decide_False.
      * rewrite !filter_cons_False by done. rewrite IH.
        destruct (decide (k ∈ ek \/ k ∈ seen)) as [H|H].
        -- rewrite decide_True; [done|set_solver].
        -- rewrite decide_False; [done|set_solver].
Qed.

(** C4.  `deduplicate_jobs` only filters: a returned posting is one of the
    new jobs and its identity key is the key of no stored pair; and a new job
    whose key no other job of the batch carries and no stored pair has is
    returned. *)
Theorem deduplicate_jobs_pure_filter
    (new_jobs : list Job) (existing_jobs : list (pystr * pystr)) (j : Job) :
  (j ∈ deduplicate_jobs new_jobs existing_jobs ->
   j ∈ new_jobs
   /\ forall t c, (t, c) ∈ existing_jobs ->
                 dedup_key j <> _normalize_job_key t c)
  /\ (j ∈ new_jobs ->
      key_count (dedup_key j) new_jobs = 1%nat ->
      (forall t c, (t, c) ∈ existing_jobs ->
                   dedup_key j <> _normalize_job_key t c) ->
      j ∈ deduplicate_jobs new_jobs existing_jobs).
Proof.
  rewrite deduplicate_jobs_from. split.
  - intros (Hin & Hek & _)%dedup_from_elem. split; [done|].
    intros t c Htc Heq. apply Hek. apply elem_of_existing_keys. eauto.
  - intros Hin Hcount Hex. apply dedup_from_keeps_unique; try done.
    intros (t & c & Htc & Heq)%elem_of_existing_keys. by apply (Hex t c).
Qed.

(** The batch of the module's self-test, with one more posting: the posting
    whose key is unique and not stored is returned. *)
Lemma deduplicate_jobs_pure_filter_witness :
  posting "NLP Engineer" "Acme"
  ∈ deduplicate_jobs
      [posting "ML Engineer" "TechCorp"; posting "ML Engineer" "TechCorp";
       posting "Data Scientist" "StartupAI"; posting "NLP Engineer" "Acme"]
      [(py "data scientist", py "startupai")].
Proof.
  apply (deduplicate_jobs_pure_filter
           [posting "ML Engineer" "TechCorp"; posting "ML Engineer" "TechCorp";
            posting "Data Scientist" "StartupAI"; posting "NLP Engineer" "Acme"]
           [(py "data scientist", py "startupai")]
           (posting "NLP Engineer" "Acme")).
  - repeat constructor.
  - vm_compute. reflexivity.
  - intros t c Htc. apply list_elem_of_singleton in Htc.
    injection Htc as -> ->. vm_compute. discriminate.
Defined.

(** C10.  The output of `deduplicate_jobs` is a subsequence of its input,
    and for every identity key the returned postings with that key are the
    first posting of the input with that key and no other (none at all when
    the key is the key of a stored pair). *)
Theorem deduplicate_jobs_keeps_first
    (new_jobs : list Job) (existing_jobs : list (pystr * pystr)) :
  sublist (deduplicate_jobs new_jobs existing_jobs) new_jobs
  /\ forall k,
       filter (fun j => dedup_key j = k)
              (deduplicate_jobs new_jobs existing_jobs)
       = if decide (k ∈ existing_keys_of existing_jobs) then []
         else take 1 (filter (fun j => dedup_key j = k) new_jobs).
Proof.
  rewrite deduplicate_jobs_from. split; [apply dedup_from_sublist|].
  intros k. rewrite dedup_from_first.
  destruct (decide (k ∈ existing_keys_of existing_jobs)) as [H|H].
  - rewrite decide_True; [done | by left].
  - rewrite decide_False; [done|]. intros [?|?%not_elem_of_empty]; done.
Qed.

End Deduplication.

(** ** Idempotent append (C1) *)

Section Append.

Import Storage.

(** On any store, a second append with the same row is refused and changes
    nothing, whether the first one recorded the posting or found it. *)
Lemma append_job_again now1 now2 row job job' st :
  append_job now2 row job' (append_job now1 row job st).2
  = (false, (append_job now1 row job st).2).
Proof.
  unfold append_job at 2 3.
  destruct (job_exists st (row_field 1 row) (row_field 2 row)) eqn:Hex.
  - unfold append_job. cbn [snd]. by rewrite Hex.
  - unfold append_job, job_exists. cbn [snd index].
    rewrite bool_decide_eq_true_2; [done|].
    rewrite lookup_insert_eq. by eexists.
Qed.

(** C1.  On a store that does not hold the posting's identity key, appending
    a posting returns true and records it: one more job in the JSON list
    (the count `get_job_count` reads), one more CSV row, one more index
    entry.  A second append with the same identity key (the same title and
    company in particular) returns false and leaves every file as it was, so
    the two calls together add exactly one job. *)
Theorem append_job_idempotent
    (now1 now2 : Clock) (row row' : list Cell) (job : Job)
    (job' : option Job) (st : Store) :
  job_exists st (row_field 1 row) (row_field 2 row) = false ->
  job_truthy job = true ->
  _normalize_key (row_field 1 row') (row_field 2 row')
  = _normalize_key (row_field 1 row) (row_field 2 row) ->
  let first := append_job now1 row (Some job) st in
  let second := append_job now2 row' job' first.2 in
  first.1 = true
  /\ second.1 = false
  /\ second.2 = first.2
  /\ get_job_count first.2 = S (get_job_count st)
  /\ get_job_count second.2 = S (get_job_count st)
  /\ get_all_jobs first.2 = get_all_jobs st ++ [set_added_at (isoformat now1) job]
  /\ length (csv_rows first.2) = S (length (csv_rows st))
  /\ size (index first.2) = S (size (index st))
  /\ job_exists first.2 (row_field 1 row) (row_field 2 row) = true.
Proof.
  intros Hnew Hjob Hkey first second.
  assert (first = append_job now1 row (Some job) st) as Hfirst by done.
  unfold append_job in Hfirst. rewrite Hnew, Hjob in Hfirst. simpl in Hfirst.
  assert (job_exists first.2 (row_field 1 row') (row_field 2 row') = true)
    as Hdup.
  { rewrite Hfirst. simpl. unfold job_exists. simpl.
    apply bool_decide_eq_true. rewrite Hkey, lookup_insert_eq. by eexists. }
  assert (second = (false, first.2)) as Hsecond.
  { unfold second, append_job. by rewrite Hdup. }
  rewrite Hsecond. simpl. rewrite Hfirst. simpl.
  unfold get_job_count, get_all_jobs. simpl.
  rewrite !length_app. simpl.
  repeat split; try lia.
  - apply map_size_insert_None.
    unfold job_exists in Hnew. apply bool_decide_eq_false in Hnew.
    by apply eq_None_not_Some.
  - unfold job_exists. simpl. apply bool_decide_eq_true.
    rewrite lookup_insert_eq. by eexists.
Qed.

Lemma append_job_idempotent_witness :
  let job := posting "ML Engineer" "TestCo" in
  let first := append_job test_clock test_row (Some job) fresh_store in
  let second := append_job test_clock test_row (Some job) first.2 in
  first.1 = true /\ second.1 = false /\ second.2 = first.2
  /\ get_job_count second.2 = 1%nat.
Proof.
  intros job first second.
  destruct (append_job_idempotent test_clock test_clock test_row test_row
              job (Some job) fresh_store)
    as (H1 & H2 & H3 & _ & H5 & _); [reflexivity | reflexivity | reflexivity |].
  repeat split; assumption.
Defined.

End Append.

(** ** Standardized postings (C9) *)

Section Standardize.

Import Scrapers.

Lemma length_slice_to n s : (length (slice_to n s) <= n)%nat.
Proof. unfold slice_to. rewrite length_take. lia. Qed.

(** The description of a standardized posting has at most 1000 characters,
    and its title is not empty whenever the raw title has a character that
    is not whitespace. *)
Lemma standardize_description_bounded src today now t c l k dp d s jt el sk :
  exists text,
    description (_standardize_job src today now t c l k dp d s jt el sk)
    = Some text /\ (length text <= 1000)%nat.
Proof.
  eexists; split; [reflexivity|].
  destruct (arg_truthy d); [apply length_slice_to | simpl; lia].
Qed.

(** C9 at a whitespace-only raw title: `title.strip() if title else ...`
    tests the raw title, which is not empty, and then strips it to the empty
    string; the sentinel is not substituted. *)
Lemma standardize_whitespace_title :
  let job :=
    _standardize_job (py "RemoteOK") (py "2024-01-15")
      (py "2024-01-15T09:00:00")
      (Some (py "   ")) (Some (py "Acme")) (Some (py "Remote"))
      (Some (py "https://example.com")) None (Some (py "ML role")) [] [] []
      None in
  title job = Some [] /\ title job <> Some (py "Unknown").
Proof. split; [reflexivity | discriminate]. Qed.

End Standardize.

(** ** Keyword tiers of the fallback scorer (C7) *)

Section FallbackScore.

Import Scorer.

Lemma startswith_spec p s :
  startswith p s = true <-> exists post, s = p ++ post.
Proof.
  revert s. induction p as [|a p IH]; intros s; simpl.
  - split; [by exists s | done].
  - destruct s as [|b s].
    + split; [done | by intros [post ?]].
    + rewrite andb_true_iff, bool_decide_eq_true, IH. split.
      * intros [-> [post ->]]. by exists post.
      * intros [post [= -> ->]]. split; [done | by exists post].
Qed.

Lemma contains_spec kw s : contains kw s = true <-> occurs_in kw s.
Proof.
  unfold occurs_in. induction s as [|c s IH]; simpl.
  - rewrite orb_false_r, startswith_spec. split.
    + intros [post H]. by exists [], post.
    + intros (pre & post & H). symmetry in H.
      apply app_eq_nil in H as [-> [-> ->]%app_eq_nil]. by exists [].
  - rewrite orb_true_iff, startswith_spec, IH. split.
    + intros [[post H]|(pre & post & H)].
      * by exists [], post.
      * exists (c :: pre), post. by rewrite H.
    + intros ([|c' pre] & post & H).
      * left. by exists post.
      * right. injection H as -> H. by exists pre, post.
Qed.

Lemma any_keyword_spec kws text :
  any_keyword kws text = true <-> matches kws text.
Proof.
  unfold any_keyword, matches. rewrite existsb_exists.
  split; intros (kw & Hin & H); exists kw.
  - split; [by apply list_elem_of_In | by apply contains_spec].
  - split; [by apply list_elem_of_In | by apply contains_spec].
Qed.

Lemma any_keyword_false kws text :
  any_keyword kws text = false <-> ~ matches kws text.
Proof. rewrite <- any_keyword_spec. by destruct (any_keyword kws text). Qed.

(** C7.  On the lower-cased title and description of the posting, joined by
    a space, the fallback scorer gives 9 when a high-relevance keyword
    occurs, else 7 when a medium one occurs, else 5 when a low one occurs,
    and 3 otherwise. *)
Theorem fallback_score_tiers (job : Job) :
  let text :=
    lower (default [] (title job)) ++ py " "
    ++ lower (default [] (description job)) in
  (matches HIGH_RELEVANCE text -> _fallback_score job = 9)
  /\ (~ matches HIGH_RELEVANCE text -> matches MEDIUM_RELEVANCE text ->
      _fallback_score job = 7)
  /\ (~ matches HIGH_RELEVANCE text -> ~ matches MEDIUM_RELEVANCE text ->
      matches LOW_RELEVANCE text -> _fallback_score job = 5)
  /\ (~ matches HIGH_RELEVANCE text -> ~ matches MEDIUM_RELEVANCE text ->
      ~ matches LOW_RELEVANCE text -> _fallback_score job = 3).
Proof.
  intros text. unfold _fallback_score. fold text.
  repeat split.
  - intros H%any_keyword_spec. by rewrite H.
  - intros H%any_keyword_false M%any_keyword_spec. by rewrite H, M.
  - intros H%any_keyword_false M%any_keyword_false L%any_keyword_spec.
    by rewrite H, M, L.
  - intros H%any_keyword_false M%any_keyword_false L%any_keyword_false.
    by rewrite H, M, L.
Qed.

(** A title of the high tier, and a title of the low tier only. *)
Lemma fallback_score_tiers_witness :
  _fallback_score (posting "Senior Machine Learning Engineer" "AI Startup") = 9.
Proof.
  apply (fallback_score_tiers
           (posting "Senior Machine Learning Engineer" "AI Startup")).
  exists (py "machine learning engineer"). split; [repeat constructor|].
  exists (py "senior "), (py " "). reflexivity.
Defined.

End FallbackScore.

(** ** Fallback match score (C8) *)

Section KeywordMatch.

Import Matcher.

Lemma trunc_ratio (k : Z) (p : positive) :
  0 <= k ->
  trunc (inject_Z k / inject_Z (Zpos p) * 10)%Q = (10 * k) / Zpos p.
Proof.
  intros Hk. unfold trunc, Qdiv, Qinv, Qmult, inject_Z. simpl.
  rewrite Z.quot_div_nonneg by lia.
  f_equal; lia.
Qed.

Lemma floor_ratio (k : Z) (p : positive) :
  Qfloor (Qmake k p * 10)%Q = (10 * k) / Zpos p.
Proof.
  unfold Qfloor, Qmult. simpl. f_equal; lia.
Qed.

Lemma overlap_score_div (k n : nat) :
  overlap_score k (S n)
  = Z.min 10 (Z.max 1 ((10 * Z.of_nat k) / Z.of_nat (S n) + 2)).
Proof.
  unfold overlap_score. rewrite bool_decide_eq_false_2 by done.
  replace (Z.of_nat (S n)) with (Zpos (Pos.of_succ_nat n)) by lia.
  rewrite trunc_ratio by lia. done.
Qed.

Lemma overlap_score_spec (k n : nat) :
  overlap_score k n = spec_fallback_match_score k n.
Proof.
  destruct n as [|n]; [done|].
  rewrite overlap_score_div. unfold spec_fallback_match_score, clamp.
  rewrite floor_ratio.
  replace (Zpos (Pos.of_nat (S n))) with (Z.of_nat (S n)) by lia.
  lia.
Qed.

Lemma overlap_score_range (k n : nat) : 1 <= overlap_score k n <= 10.
Proof.
  destruct n as [|n]; [done|]. rewrite overlap_score_div. lia.
Qed.

Lemma overlap_score_mono (k k' n : nat) :
  (k <= k')%nat -> overlap_score k n <= overlap_score k' n.
Proof.
  intros Hk. destruct n as [|n]; [done|]. rewrite !overlap_score_div.
  assert ((10 * Z.of_nat k) / Z.of_nat (S n)
          <= (10 * Z.of_nat k') / Z.of_nat (S n)).
  { apply Z.div_le_mono; lia. }
  lia.
Qed.

(** C8.  The match score of `_keyword_match` is the specification's
    clamp(1, 10, floor(overlapRatio * 10) + 2) over the skills extracted from
    the job, and 5 when there are none; it lies in [1, 10]; and for a fixed
    job it does not decrease when the set of matching skills grows. *)
Theorem keyword_match_score
    (rt : Runtime) (user_skills user_skills' : gset pystr) (job : Job) :
  let job_skills := job_skills_of rt job in
  let matching := user_skills ∩ job_skills in
  let matching' := user_skills' ∩ job_skills in
  exists score score',
    match_score (_keyword_match rt user_skills job) = Some score
    /\ match_score (_keyword_match rt user_skills' job) = Some score'
    /\ score = spec_fallback_match_score (size matching) (size job_skills)
    /\ (job_skills = ∅ -> score = 5)
    /\ 1 <= score <= 10
    /\ (matching ⊆ matching' -> score <= score').
Proof.
  intros job_skills matching matching'.
  exists (overlap_score (size matching) (size job_skills)),
         (overlap_score (size matching') (size job_skills)).
  split; [done|]. split; [done|].
  split; [apply overlap_score_spec|].
  split; [by intros ->|].
  split; [apply overlap_score_range|].
  intros Hsub. apply overlap_score_mono. by apply subseteq_size.
Qed.

End KeywordMatch.

Section KeywordMatchExample.

Import Matcher.

Lemma python_subset (X : gset pystr) :
  {[ py "python" ]} ∩ X ⊆ {[ py "python"; py "pytorch" ]} ∩ X.
Proof.
  generalize (py "python") (py "pytorch"). intros a b. set_solver.
Qed.

Lemma keyword_match_score_witness :
  exists score score',
    match_score (_keyword_match offline {[ py "python" ]} listed_skills_job)
    = Some score
    /\ match_score
         (_keyword_match offline {[ py "python"; py "pytorch" ]}
                         listed_skills_job)
       = Some score'
    /\ 1 <= score <= 10 /\ score <= score'.
Proof.
  destruct (keyword_match_score offline {[ py "python" ]}
              {[ py "python"; py "pytorch" ]} listed_skills_job)
    as (score & score' & H & H' & _ & _ & Hrange & Hmono).
  exists score, score'.
  split; [exact H|]. split; [exact H'|]. split; [exact Hrange|].
  apply Hmono. apply python_subset.
Defined.

End KeywordMatchExample.

(** ** Relevance scores (C2) *)

Section ScoreRelevance.

Import PyVal Scorer.

Lemma fallback_score_range job : 1 <= _fallback_score job <= 10.
Proof.
  unfold _fallback_score.
  destruct (any_keyword HIGH_RELEVANCE _); [lia|].
  destruct (any_keyword MEDIUM_RELEVANCE _); [lia|].
  destruct (any_keyword LOW_RELEVANCE _); lia.
Qed.

(** Whenever `score_relevance` returns, the score is in [1, 10]. *)
Lemma score_relevance_range rt model job z :
  score_relevance rt model job = Return z -> 1 <= z <= 10.
Proof.
  pose proof (fallback_score_range job) as Hf.
  unfold score_relevance. cbv zeta.
  generalize (_call_ollama rt model
    (SCORING_PROMPT (default (py "Unknown") (title job))
       (default (py "Unknown") (company job))
       (str_or (slice_to 500 (default [] (description job)))
               (py "No description available")))).
  intros [response|]; [|by intros [= <-]].
  destruct (truthy response); [|by intros [= <-]].
  destruct (_parse_llm_response rt response) as [[v|]|e];
    [| by intros [= <-] | done].
  cbn [mbind exc_bind].
  destruct (json_truthy v); [|by intros [= <-]].
  destruct (py_in (py "score") v) as [[|]|e];
    [| by intros [= <-] | done].
  cbn [mbind exc_bind].
  destruct (py_getitem (py "score") v) as [raw|e]; [|done].
  cbn [mbind exc_bind].
  destruct (py_int raw) as [n|e]; [|done].
  cbn [mbind exc_bind mret exc_ret]. intros [= <-]. lia.
Qed.

(** C2 at a reply that is valid JSON with a non-numeric score: the
    dictionary passes the test `result and 'score' in result`, and
    `int(result['score'])` raises `ValueError`, which `score_relevance` does
    not catch. *)
Theorem score_relevance_raises_on_non_numeric_score
    (rt : Runtime) (model : pystr) (job : Job) :
  (forall prompt, _call_ollama rt model prompt = Some non_numeric_reply) ->
  json_loads rt non_numeric_reply = Some non_numeric_dict ->
  score_relevance rt model job = Raise ValueError.
Proof.
  intros Hcall Hloads. unfold score_relevance. rewrite Hcall.
  unfold _parse_llm_response. rewrite Hloads. reflexivity.
Qed.

Lemma score_relevance_raises_witness :
  score_relevance non_numeric_runtime (py "llama3")
                  (posting "Machine Learning Engineer" "Acme")
  = Raise ValueError.
Proof.
  apply score_relevance_raises_on_non_numeric_score.
  - intros prompt. reflexivity.
  - reflexivity.
Defined.

(** `int()` does not skip the separators U+001C to U+001F, which
    `str.strip` removes; it skips a no-break space. *)
Lemma int_of_pystr_whitespace :
  int_of_pystr [ascii_of_nat 28; "7"%char] = Raise ValueError
  /\ int_of_pystr (py " 7" ++ [ascii_of_nat 160]) = Return 7
  /\ strip [ascii_of_nat 28; "7"%char] = py "7".
Proof. repeat split. Qed.

End ScoreRelevance.

(** ** The scoring stage (C5, C6) *)

Section StageProperties.

Import Main.

Lemma elem_of_insert_desc j x l : j ∈ insert_desc x l <-> j = x \/ j ∈ l.
Proof.
  induction l as [|y l IH]; simpl.
  - rewrite list_elem_of_singleton. set_solver.
  - destruct (Qle_bool (sort_key x) (sort_key y)).
    + rewrite !elem_of_cons, IH. tauto.
    + rewrite !elem_of_cons. tauto.
Qed.

Lemma elem_of_foldl_insert_desc j l : forall acc,
  j ∈ foldl (fun acc x => insert_desc x acc) acc l <-> j ∈ acc \/ j ∈ l.
Proof.
  induction l as [|x l IH]; intros acc; simpl.
  - rewrite elem_of_nil. tauto.
  - rewrite IH, elem_of_insert_desc, elem_of_cons. tauto.
Qed.

(** Sorting neither adds nor loses a job. *)
Lemma elem_of_sort_desc j l : j ∈ sort_desc l <-> j ∈ l.
Proof.
  unfold sort_desc. rewrite elem_of_foldl_insert_desc, elem_of_nil. tauto.
Qed.

End StageProperties.

Section StageClaims.

Import Main.

Variable score_relevance : Job -> Exc Z.
Variable config : Config.

Lemma process_job_calls match_job st job :
  (forall j, j ∈ match_calls st ->
     exists r, score_relevance j = Return r /\ min_relevance_score config <= r) ->
  forall j,
    j ∈ match_calls (process_job score_relevance match_job config st job) ->
    exists r, score_relevance j = Return r /\ min_relevance_score config <= r.
Proof.
  intros Hst j. unfold process_job.
  destruct (score_relevance job) as [r|e] eqn:Hscore; [|apply Hst].
  destruct (r <? min_relevance_score config) eqn:Hlt; [apply Hst|].
  apply Z.ltb_ge in Hlt.
  assert (j ∈ match_calls st ++ [job] ->
          exists r, score_relevance j = Return r
                    /\ min_relevance_score config <= r) as Hcalls.
  { rewrite elem_of_app, list_elem_of_singleton.
    intros [?| ->]; [by apply Hst | by exists r]. }
  destruct (match_job job) as [mr|e]; [|apply Hcalls].
  destruct (score_job r mr job) as [[c job']|e]; [|apply Hcalls].
  destruct (Float64.ge _ _); apply Hcalls.
Qed.

Lemma process_job_ext match_job match_job' st job :
  (forall r, score_relevance job = Return r ->
             min_relevance_score config <= r ->
             match_job job = match_job' job) ->
  process_job score_relevance match_job config st job
  = process_job score_relevance match_job' config st job.
Proof.
  intros Hagree. unfold process_job.
  destruct (score_relevance job) as [r|e]; [|done].
  destruct (r <? min_relevance_score config) eqn:Hlt; [done|].
  apply Z.ltb_ge in Hlt. by rewrite (Hagree r).
Qed.

(** C6.  A posting whose relevance score is below the configured minimum is
    discarded at once: the loop state is unchanged, so nothing is appended
    and `match_job` is not called.  Every job `match_job` is called with has
    a relevance score of at least the minimum, and two matchers that agree
    on those jobs give the same output of the stage. *)
Theorem irrelevant_postings_skip_matcher
    (match_job match_job' : Job -> Exc MatchDict)
    (jobs : list Job) :
  (forall st job r,
     score_relevance job = Return r -> r < min_relevance_score config ->
     process_job score_relevance match_job config st job = st)
  /\ (forall j,
        j ∈ match_calls (run_stage score_relevance match_job config jobs) ->
        exists r, score_relevance j = Return r
                  /\ min_relevance_score config <= r)
  /\ ((forall job r,
         score_relevance job = Return r -> min_relevance_score config <= r ->
         match_job job = match_job' job) ->
      process_jobs_with_ai score_relevance match_job config jobs
      = process_jobs_with_ai score_relevance match_job' config jobs).
Proof.
  split; [|split].
  - intros st job r Hscore Hlt. unfold process_job. rewrite Hscore.
    apply Z.ltb_lt in Hlt. by rewrite Hlt.
  - unfold run_stage.
    assert (forall st,
              (forall j, j ∈ match_calls st ->
                 exists r, score_relevance j = Return r
                           /\ min_relevance_score config <= r) ->
              forall j,
                j ∈ match_calls
                      (foldl (process_job score_relevance match_job config)
                             st jobs) ->
                exists r, score_relevance j = Return r
                          /\ min_relevance_score config <= r) as Hgen.
    { induction jobs as [|job rest IH]; intros st Hst; simpl; [done|].
      apply IH. by apply process_job_calls. }
    apply Hgen. simpl. by intros j ?%elem_of_nil.
  - intros Hagree. unfold process_jobs_with_ai, run_stage. do 2 f_equal.
    generalize (mkLoopState [] []).
    induction jobs as [|job rest IH]; intros st; simpl; [done|].
    rewrite (process_job_ext match_job match_job'); [apply IH|].
    apply Hagree.
Qed.

End StageClaims.

Section StageExamples.

Import Main.

(** An `int` beyond the range of floats cannot be multiplied by `0.4`; the
    largest one that can is just below `2 ** 1024 - 2 ** 970`. *)
Lemma combined_score_of_overflow :
  combined_score_of (2 ^ 1024 - 2 ^ 970) 5 = Raise OverflowError
  /\ combined_score_of 5 (2 ^ 1024 - 2 ^ 970) = Raise OverflowError
  /\ exists c, combined_score_of (2 ^ 1024 - 2 ^ 970 - 1) 5
               = Return (FFinite c).
Proof.
  split; [vm_compute; reflexivity|]. split; [vm_compute; reflexivity|].
  eexists. vm_compute. reflexivity.
Qed.

(** Every failure inside the `try` block reaches the `except` branch: a
    matcher that raises, and a relevance score too large for a float.  A
    posting with a fallback keyword in its title is then admitted with the
    fixed scores, any other posting is dropped. *)
Lemma stage_failures_fall_back :
  let config := mkConfig 5 (FFinite 5) in
  let ml := posting "ML Engineer" "Acme" in
  let other := posting "Accountant" "Beta" in
  process_jobs_with_ai (fixed_scorer 9) failing_matcher config [ml; other]
  = [set_scores 7 5 6 (JArr []) (JArr []) 6 ml]
  /\ process_jobs_with_ai (fixed_scorer (2 ^ 1024)) (fixed_matcher 5) config
                          [ml; other]
     = [set_scores 7 5 6 (JArr []) (JArr []) 6 ml].
Proof. split; vm_compute; reflexivity. Qed.

(** The arithmetic of the stage is that of floats: with relevance 7 and
    match 5 the combined score is 5.800000000000001, which passes a minimum
    of that value, and the score that is stored is `round(x, 1)`, the float
    5.8. *)
Lemma stored_score_is_rounded :
  let minimum := (1632554864921805 # 281474976710656)%Q in
  let stored := (6530219459687219 # 1125899906842624)%Q in
  process_jobs_with_ai (fixed_scorer 7) (fixed_matcher 5)
                       (mkConfig 5 (FFinite minimum))
                       [posting "ML Engineer" "Acme"]
  = [set_scores 7 5 stored (JArr []) (JArr []) 6
       (posting "ML Engineer" "Acme")]
  /\ (stored < minimum)%Q.
Proof. split; [vm_compute; reflexivity | reflexivity]. Qed.

(** C5 fails on the code.  The inference process answers
    `{"score": "high"}`, `score_relevance` raises, and the `except` branch
    admits the posting, whose title has a fallback keyword, with the combined
    score 6 although the configured minimum is 7: the branch never compares
    the score it assigns with the minimum.  On the `try` path the minimum is
    applied: the same posting scored 7 and matched 5 is rejected. *)
Theorem fallback_admits_below_minimum :
  let job := posting "Machine Learning Engineer" "Acme" in
  let config := mkConfig 5 (FFinite 7) in
  let scorer := Scorer.score_relevance non_numeric_runtime (py "llama3") in
  let out := process_jobs_with_ai scorer (fixed_matcher 5) config [job] in
  scorer job = Raise ValueError
  /\ out = [set_scores 7 5 6 (JArr []) (JArr []) 6 job]
  /\ (forall j, j ∈ out ->
        exists c, combined_score j = Some c
                  /\ Float64.ge (FFinite c) (min_combined_score config)
                     = false)
  /\ process_jobs_with_ai (fixed_scorer 7) (fixed_matcher 5) config [job]
     = [].
Proof.
  intros job config scorer out.
  assert (out = [set_scores 7 5 6 (JArr []) (JArr []) 6 job]) as Hout
    by (vm_compute; reflexivity).
  split; [vm_compute; reflexivity|]. split; [exact Hout|]. split.
  - rewrite Hout. intros j ->%list_elem_of_singleton.
    exists 6%Q. split; reflexivity.
  - vm_compute. reflexivity.
Qed.

(** The scenario of the specification: relevance 4 under the threshold 5.
    The matcher that fails when called and a matcher that answers give the
    same, empty, output. *)
Lemma irrelevant_postings_skip_matcher_witness :
  process_jobs_with_ai (fixed_scorer 4) failing_matcher
                       (mkConfig 5 (FFinite 5))
                       [posting "Accountant" "Beta"]
  = process_jobs_with_ai (fixed_scorer 4) (fixed_matcher 10)
                         (mkConfig 5 (FFinite 5))
                         [posting "Accountant" "Beta"]
  /\ match_calls (run_stage (fixed_scorer 4) failing_matcher
                            (mkConfig 5 (FFinite 5))
                            [posting "Accountant" "Beta"]) = [].
Proof.
  destruct (irrelevant_postings_skip_matcher (fixed_scorer 4)
              (mkConfig 5 (FFinite 5))
              failing_matcher (fixed_matcher 10) [posting "Accountant" "Beta"])
    as (Hskip & _ & Hsame).
  split.
  - apply Hsame. intros job r [= <-] Hle. simpl in Hle. lia.
  - unfold run_stage. simpl foldl.
    rewrite (Hskip _ _ 4); [reflexivity | reflexivity | simpl; lia].
Defined.

End StageExamples.

(** * Further properties of the pipeline *)

(** ** Text helpers *)

Section TextHelpers.

Import Utils.

Lemma rstrip_keeps x d : isspace d = false -> rstrip (x ++ [d]) = x ++ [d].
Proof.
  intros Hd. unfold rstrip. rewrite rev_app_distr. simpl. rewrite Hd.
  change (rev (d :: rev x)) with (rev (rev x) ++ [d]).
  by rewrite rev_involutive.
Qed.

Lemma join_cons_cons sep p q ws :
  join sep (p :: q :: ws) = p ++ sep ++ join sep (q :: ws).
Proof. reflexivity. Qed.

(** A joined list of words starts and ends with a character that is not
    whitespace. *)
Lemma join_words_ends sep p ws :
  Forall word (p :: ws) ->
  (exists c x, join sep (p :: ws) = c :: x /\ isspace c = false)
  /\ (exists y d, join sep (p :: ws) = y ++ [d] /\ isspace d = false).
Proof.
  revert p. induction ws as [|q ws IH]; intros p Hws.
  - inversion Hws as [|? ? [Hne Hp] _]; subst. simpl. split.
    + destruct p as [|c x]; [done|]. inversion Hp; subst. by exists c, x.
    + destruct (rev p) as [|d y] eqn:Hrev.
      { apply (f_equal (@rev ascii)) in Hrev. rewrite rev_involutive in Hrev.
        done. }
      assert (p = rev y ++ [d]) as ->.
      { rewrite <- (rev_involutive p), Hrev. reflexivity. }
      exists (rev y), d. split; [done|].
      apply Forall_app in Hp as [_ Hd]. by inversion Hd.
  - inversion Hws as [|? ? [Hne Hp] Hrest]; subst.
    rewrite join_cons_cons. split.
    + destruct p as [|c x]; [done|]. inversion Hp; subst.
      by exists c, (x ++ sep ++ join sep (q :: ws)).
    + destruct (IH q Hrest) as [_ (y & d & Hy & Hd)].
      exists (p ++ sep ++ y), d. split; [|done].
      rewrite Hy. by rewrite <- !app_assoc.
Qed.

Lemma strip_join_words ws :
  Forall word ws -> strip (join (py " ") ws) = join (py " ") ws.
Proof.
  destruct ws as [|p ws]; [done|]. intros Hws.
  destruct (join_words_ends (py " ") p ws Hws)
    as [(c & x & Hcx & Hc) (y & d & Hyd & Hd)].
  unfold strip. rewrite Hcx. simpl. rewrite Hc. rewrite <- Hcx, Hyd.
  by apply rstrip_keeps.
Qed.

(** X1.  `clean_text` is the words of the text joined by single spaces: it
    applies `strip` to a string that has no whitespace at its ends, it keeps
    the words of the text, and cleaning a cleaned text changes nothing. *)
Theorem clean_text_normal_form (text : pystr) :
  clean_text text = join (py " ") (split text)
  /\ split (clean_text text) = split text
  /\ strip (clean_text text) = clean_text text
  /\ clean_text (clean_text text) = clean_text text.
Proof.
  assert (Forall word (split text)) as Hwords.
  { apply split_go_words. constructor. }
  assert (clean_text text = join (py " ") (split text)) as Hclean.
  { unfold clean_text. destruct text as [|c text]; [done|].
    simpl negb. cbv iota. by apply strip_join_words. }
  assert (forall t, clean_text t = join (py " ") (split t)) as Hall.
  { intros t. unfold clean_text. destruct t as [|c t]; [done|].
    simpl negb. cbv iota. apply strip_join_words.
    apply split_go_words. constructor. }
  split; [done|]. split; [|split].
  - rewrite Hclean. by apply split_join.
  - rewrite Hclean. by apply strip_join_words.
  - rewrite (Hall (clean_text text)), Hclean. by rewrite split_join.
Qed.

Lemma length_slice_to_int k s :
  0 <= k <= Z.of_nat (length s) ->
  Z.of_nat (length (slice_to_int k s)) = k.
Proof.
  intros Hk. unfold slice_to_int.
  rewrite (proj2 (Z.leb_le 0 k)) by lia. rewrite length_take. lia.
Qed.

(** X2.  When the suffix is not longer than `max_length`, the result of
    `truncate_text` never has more than `max_length` characters: a text that
    fits is returned as it is, and a longer text is cut to exactly
    `max_length` characters, the first `max_length - len(suffix)` characters
    of the text followed by the suffix. *)
Theorem truncate_text_bounded (text : pystr) (max_length : Z)
    (suffix : pystr) :
  Z.of_nat (length suffix) <= max_length ->
  let result := truncate_text text max_length suffix in
  Z.of_nat (length result) <= max_length
  /\ (Z.of_nat (length text) <= max_length -> result = text)
  /\ (max_length < Z.of_nat (length text) ->
      result
      = take (Z.to_nat (max_length - Z.of_nat (length suffix))) text ++ suffix
      /\ Z.of_nat (length result) = max_length).
Proof.
  intros Hsuffix result. subst result. unfold truncate_text.
  destruct (Z.of_nat (length text) <=? max_length) eqn:Hfit.
  - apply Z.leb_le in Hfit. rewrite orb_true_r.
    split; [done|]. split; [done|]. lia.
  - apply Z.leb_gt in Hfit. rewrite orb_false_r.
    destruct text as [|c text]; [simpl in Hfit; lia|]. simpl negb. cbv iota.
    assert (Z.of_nat (length
              (slice_to_int (max_length - Z.of_nat (length suffix))
                            (c :: text)))
            = max_length - Z.of_nat (length suffix)) as Hlen.
    { apply length_slice_to_int. lia. }
    rewrite length_app.
    split; [lia|]. split; [lia|]. intros _. split; [|lia].
    unfold slice_to_int. by rewrite (proj2 (Z.leb_le 0 _)) by lia.
Qed.

Lemma truncate_text_bounded_witness :
  truncate_text (py "Senior Machine Learning Engineer") 12 (py "...")
  = py "Senior Ma...".
Proof.
  destruct (truncate_text_bounded (py "Senior Machine Learning Engineer") 12
              (py "...")) as (_ & _ & Hcut); [simpl; lia|].
  destruct Hcut as [Hresult _]; [simpl; lia|]. exact Hresult.
Defined.

End TextHelpers.

(** ** Retries *)

Section Retry.

Import Utils.

Context {T : Type}.
Variable func : nat -> Exc T.
Variable max_retries : nat.
Variable base_delay : Q.

Lemma retry_from_success v : forall k n a e0,
  (k < n)%nat -> (a + k <= max_retries)%nat ->
  (forall i, (i < k)%nat -> exists e, func (a + i) = Raise e) ->
  func (a + k) = Return v ->
  retry_from func max_retries base_delay e0 n a
  = (Return v, map (backoff_delay base_delay) (seq a k)).
Proof.
  induction k as [|k IH]; intros n a e0 Hn Ha Hfail Hok.
  - destruct n as [|n]; [lia|]. simpl.
    replace (a + 0)%nat with a in Hok by lia. by rewrite Hok.
  - destruct n as [|n]; [lia|]. simpl.
    destruct (Hfail 0%nat) as [e He]; [lia|].
    replace (a + 0)%nat with a in He by lia. rewrite He.
    rewrite (proj2 (Nat.ltb_lt a max_retries)) by lia.
    rewrite (IH n (S a) e); try lia.
    + reflexivity.
    + intros i Hi. destruct (Hfail (S i)) as [e' He']; [lia|].
      exists e'. by replace (S a + i)%nat with (a + S i)%nat by lia.
    + by replace (S a + k)%nat with (a + S k)%nat by lia.
Qed.

Lemma retry_from_exhausted e : forall n a e0,
  (a + S n = S max_retries)%nat ->
  (forall i, (i <= n)%nat -> exists e', func (a + i) = Raise e') ->
  func max_retries = Raise e ->
  retry_from func max_retries base_delay e0 (S n) a
  = (Raise e, map (backoff_delay base_delay) (seq a n)).
Proof.
  induction n as [|n IH]; intros a e0 Ha Hfail Hlast.
  - assert (a = max_retries) as -> by lia. simpl. rewrite Hlast.
    by rewrite Nat.ltb_irrefl.
  - destruct (Hfail 0%nat) as [e1 He1]; [lia|].
    replace (a + 0)%nat with a in He1 by lia.
    change (retry_from func max_retries base_delay e0 (S (S n)) a)
      with (match func a with
            | Return v => (Return v, [])
            | Raise e' =>
                let rest :=
                  retry_from func max_retries base_delay e' (S n) (S a) in
                if (a <? max_retries)%nat
                then (rest.1, backoff_delay base_delay a :: rest.2)
                else rest
            end).
    rewrite He1. rewrite (proj2 (Nat.ltb_lt a max_retries)) by lia.
    cbv zeta. rewrite (IH (S a) e1); try lia; try done.
    intros i Hi. destruct (Hfail (S i)) as [e' He']; [lia|].
    exists e'. by replace (S a + i)%nat with (a + S i)%nat by lia.
Qed.


End Retry.


(** ** The store *)

Section StoreInvariants.

Import Storage.

Lemma sum_with_insert_None {V} (f : V -> Z) (m : gmap pystr V) k v :
  m !! k = None -> sum_with f (<[ k := v ]> m) = f v + sum_with f m.
Proof.
  intros Hk. unfold sum_with.
  rewrite map_fold_insert_L; [done | | done]. intros. lia.
Qed.

Lemma sum_with_insert {V} (f : V -> Z) (m : gmap pystr V) k v :
  sum_with f (<[ k := v ]> m)
  = sum_with f m - from_option f 0 (m !! k) + f v.
Proof.
  destruct (m !! k) as [v0|] eqn:Hk; simpl.
  - rewrite <- (insert_delete_eq m k v).
    rewrite <- (insert_delete_id m k v0) at 2 by done.
    rewrite !sum_with_insert_None by apply lookup_delete_eq. lia.
  - rewrite sum_with_insert_None by done. lia.
Qed.

Lemma sum_with_bump (m : gmap pystr Z) k :
  sum_with id (bump k m) = sum_with id m + 1.
Proof.
  unfold bump. rewrite sum_with_insert.
  destruct (m !! k); simpl; unfold id; lia.
Qed.

Lemma length_written_row row_data :
  length (take (length HEADERS) (pad_row row_data)) = length HEADERS.
Proof.
  unfold pad_row. rewrite length_take, length_app, length_replicate. lia.
Qed.

Lemma consistent_fresh : consistent fresh_store.
Proof.
  split; simpl; try done.
  - by repeat constructor.
  - intros k [v Hv]. by rewrite lookup_empty in Hv.
Qed.

(** The dictionary `append_job` hands to `_update_analytics` has matching
    skills that can be counted when the job dictionary has. *)
Lemma counted_skills_stored now job_dict :
  counted_skills job_dict ->
  exists skills,
    PyVal.iter_strs
      (default (JArr [])
         (matching_skills
            (default empty_job
               (match job_dict with
                | Some j =>
                    if job_truthy j then Some (set_added_at (isoformat now) j)
                    else None
                | None => None
                end))))
    = Return skills.
Proof.
  intros Hcounted. destruct job_dict as [j|]; [|by exists []].
  destruct (job_truthy j); [|by exists []]. exact (Hcounted j eq_refl).
Qed.

Lemma consistent_append now row_data job_dict st :
  counted_skills job_dict ->
  consistent st -> consistent (append_job now row_data job_dict st).2.
Proof.
  intros Hcounted [Hrows Hwidth Htotal Hjobs Hkeys Hsources Hdays].
  destruct (counted_skills_stored now job_dict Hcounted) as [skills Hskills].
  unfold append_job.
  destruct (job_exists st (row_field 1 row_data) (row_field 2 row_data))
    eqn:Hex; [by split|].
  unfold job_exists in Hex. apply bool_decide_eq_false in Hex.
  apply eq_None_not_Some in Hex.
  assert (size (<[ _normalize_key (row_field 1 row_data)
                                  (row_field 2 row_data) := isoformat now ]>
                  (index st)) = S (size (index st))) as Hsize.
  { by apply map_size_insert_None. }
  split; cbn [snd csv_rows json_jobs metadata_total_jobs index analytics];
    unfold _update_analytics; rewrite ?Hskills;
    cbn [source_stats daily_stats].
  - rewrite length_app, Hsize. simpl. lia.
  - apply Forall_app. split; [done|]. constructor; [|constructor].
    apply length_written_row.
  - destruct job_dict as [j|]; [destruct (job_truthy j)|]; simpl;
      rewrite ?app_nil_r; done.
  - rewrite Hsize, length_app.
    destruct job_dict as [j|]; [destruct (job_truthy j)|]; simpl; lia.
  - intros k [v Hv]. destruct (decide (k = _normalize_key (row_field 1 row_data)
                                              (row_field 2 row_data)))
      as [-> | Hne]; [by eexists _, _|].
    rewrite lookup_insert_ne in Hv by done. apply Hkeys. by exists v.
  - rewrite sum_with_bump, Hsize, Hsources. lia.
  - rewrite sum_with_insert, Hsize, Hdays.
    destruct (daily_stats (analytics st) !! today now); simpl; lia.
Qed.

(** A job dictionary whose matching skills cannot be counted is stored all
    the same, and the analytics are left as they were. *)
Lemma uncounted_skills_leave_analytics now row_data j e st :
  job_exists st (row_field 1 row_data) (row_field 2 row_data) = false ->
  job_truthy j = true ->
  PyVal.iter_strs (default (JArr []) (matching_skills j)) = Raise e ->
  (append_job now row_data (Some j) st).1 = true
  /\ analytics (append_job now row_data (Some j) st).2 = analytics st.
Proof.
  intros Hnew Hj Hskills. unfold append_job. rewrite Hnew, Hj.
  cbn [fst snd analytics]. split; [done|].
  unfold _update_analytics. cbn [from_option].
  change (matching_skills (id (set_added_at (isoformat now) j)))
    with (matching_skills j).
  by rewrite Hskills.
Qed.

Lemma reachable_invariant (st : Store) : reachable st -> consistent st.
Proof.
  induction 1 as [|now row_data job_dict st Hcounted _ IH].
  - apply consistent_fresh.
  - by apply consistent_append.
Qed.

(** X4.  In every store reached from the files as first created by calls of
    `append_job`, whatever their rows and with job dictionaries whose
    matching skills are strings, the files agree: the CSV file has its
    header and one row for each key of the index, every row has the fourteen
    columns of the header, `total_jobs` is the length of the JSON list, which
    is never longer than the index, every key of the index is a normalized
    title and company, and the per-source counts as well as the daily counts
    of the analytics add up to the number of keys. *)
Theorem store_files_agree (st : Store) :
  reachable st ->
  length (csv_rows st) = S (size (index st))
  /\ Forall (fun row => length row = 14%nat) (csv_rows st)
  /\ metadata_total_jobs st = Z.of_nat (length (json_jobs st))
  /\ (length (json_jobs st) <= size (index st))%nat
  /\ (forall k, is_Some (index st !! k) ->
                exists t c, k = _normalize_key t c)
  /\ sum_with id (source_stats (analytics st)) = Z.of_nat (size (index st))
  /\ sum_with count (daily_stats (analytics st))
     = Z.of_nat (size (index st)).
Proof.
  intros [H1 H2 H3 H4 H5 H6 H7]%reachable_invariant. repeat split; done.
Qed.

End StoreInvariants.

Lemma store_files_agree_witness :
  let st :=
    (Storage.append_job test_clock test_row
       (Some (posting "ML Engineer" "TestCo")) Storage.fresh_store).2 in
  length (Storage.csv_rows st) = S (size (Storage.index st))
  /\ Storage.metadata_total_jobs st
     = Z.of_nat (length (Storage.json_jobs st)).
Proof.
  intros st.
  destruct (store_files_agree st) as (H1 & _ & H3 & _).
  - apply reach_append; [|apply reach_fresh].
    intros j [= <-]. by exists [].
  - split; assumption.
Defined.

(** ** Reading the index back *)

Section ExistingJobs.

Import Storage StorageQueries.

Lemma split_at_bar_app a b :
  no_bar a -> split_at_bar (a ++ "|"%char :: b) = Some (a, b).
Proof.
  induction 1 as [|c a Hc _ IH]; simpl; [done|].
  rewrite bool_decide_eq_false_2 by done. by rewrite IH.
Qed.

Lemma split_at_bar_inv key : forall a b,
  split_at_bar key = Some (a, b) -> key = a ++ "|"%char :: b.
Proof.
  induction key as [|c key IH]; intros a b; simpl; [done|].
  case_bool_decide as Hc.
  - intros [= <- <-]. by rewrite Hc.
  - destruct (split_at_bar key) as [[a' b']|]; simpl; [|done].
    intros [= <- <-]. simpl. f_equal. by apply IH.
Qed.

Lemma normalized_no_bar s : no_bar (Helpers.normalized s).
Proof.
  eapply Forall_impl; [apply normalized_clean|].
  intros c [Hkeep _] ->. done.
Qed.

Lemma split_at_bar_key t c :
  split_at_bar (_normalize_key t c)
  = Some (Helpers.normalized t, Helpers.normalized c).
Proof.
  rewrite _normalize_key_eq. unfold Helpers._normalize_job_key.
  apply split_at_bar_app, normalized_no_bar.
Qed.

Lemma elem_of_get_existing_jobs st a b :
  (a, b) ∈ get_existing_jobs st
  <-> exists k, is_Some (index st !! k) /\ split_at_bar k = Some (a, b).
Proof.
  unfold get_existing_jobs. rewrite list_elem_of_omap. split.
  - intros (k & Hk & Hsplit). exists k. split; [|done].
    apply list_elem_of_fmap in Hk as ([k' v] & -> & Hkv).
    apply elem_of_map_to_list in Hkv. by exists v.
  - intros (k & [v Hv] & Hsplit). exists k. split; [|done].
    apply list_elem_of_fmap. exists (k, v).
    split; [done|]. by apply elem_of_map_to_list.
Qed.

(** X5.  `get_existing_jobs` and `job_exists` read the index alike: for
    every store, a title and company exist in the store exactly when the
    pair of their normalized forms is among the pairs `get_existing_jobs`
    returns. *)
Theorem job_exists_get_existing_jobs (st : Store) (t c : pystr) :
  job_exists st t c = true
  <-> (Helpers.normalized t, Helpers.normalized c) ∈ get_existing_jobs st.
Proof.
  unfold job_exists. rewrite bool_decide_eq_true, elem_of_get_existing_jobs.
  split.
  - intros H. exists (_normalize_key t c). split; [done|].
    apply split_at_bar_key.
  - intros (k & Hk & Hsplit). apply split_at_bar_inv in Hsplit as ->.
    exact Hk.
Qed.

Lemma existing_keys_renormalized st t c :
  renormalized st ->
  _normalize_key t c ∈ Helpers.existing_keys_of (get_existing_jobs st)
  <-> is_Some (index st !! _normalize_key t c).
Proof.
  intros Hnorm. rewrite elem_of_existing_keys. split.
  - intros (a & b & Hab & Hkey).
    apply elem_of_get_existing_jobs in Hab as (k0 & Hk0 & Hsplit).
    rewrite Hkey. by rewrite (Hnorm k0 a b Hk0 Hsplit).
  - intros Hk. exists (Helpers.normalized t), (Helpers.normalized c). split.
    + apply elem_of_get_existing_jobs. exists (_normalize_key t c).
      split; [done | apply split_at_bar_key].
    + symmetry. apply (Hnorm _ _ _ Hk), split_at_bar_key.
Qed.

(** X6.  Deduplication against the store.  When every key of the index is
    what `deduplicate_jobs` computes again from the two sides
    `get_existing_jobs` splits it into,
    `deduplicate_jobs(new_jobs, get_existing_jobs())` returns no job whose
    title and company exist in the store, and it returns every new job whose
    key is unique in the batch and whose title and company do not exist in
    the store. *)
Theorem deduplicate_against_store (st : Store) (new_jobs : list Job)
    (j : Job) :
  renormalized st ->
  let stored :=
    job_exists st (default [] (title j)) (default [] (company j)) in
  (j ∈ Helpers.deduplicate_jobs new_jobs (get_existing_jobs st) ->
   stored = false)
  /\ (j ∈ new_jobs -> key_count (Helpers.dedup_key j) new_jobs = 1%nat ->
      stored = false ->
      j ∈ Helpers.deduplicate_jobs new_jobs (get_existing_jobs st)).
Proof.
  intros Hnorm stored. subst stored.
  rewrite deduplicate_jobs_from. unfold job_exists.
  pose proof (existing_keys_renormalized st (default [] (title j))
                (default [] (company j)) Hnorm) as Hkeys.
  assert (Helpers.dedup_key j
          = _normalize_key (default [] (title j)) (default [] (company j)))
    as Hkey by reflexivity.
  split.
  - intros (_ & Hek & _)%dedup_from_elem. apply bool_decide_eq_false.
    rewrite <- Hkeys. by rewrite <- Hkey.
  - intros Hin Hcount Hnew%bool_decide_eq_false.
    apply dedup_from_keeps_unique; try done.
    rewrite Hkey. by rewrite Hkeys.
Qed.

Lemma deduplicate_against_store_witness :
  let st :=
    (append_job test_clock test_row (Some (posting "ML Engineer" "TestCo"))
                fresh_store).2 in
  posting "NLP Engineer" "Acme"
  ∈ Helpers.deduplicate_jobs
      [posting "ml engineer" "testco"; posting "NLP Engineer" "Acme"]
      (get_existing_jobs st).
Proof.
  intros st.
  apply (deduplicate_against_store st
           [posting "ml engineer" "testco"; posting "NLP Engineer" "Acme"]
           (posting "NLP Engineer" "Acme")).
  - intros k a b [v Hv] Hsplit.
    change (index st)
      with (<[ _normalize_key (py "ML Engineer") (py "TestCo")
               := isoformat test_clock ]> (∅ : gmap pystr pystr)) in Hv.
    apply lookup_insert_Some in Hv as [[<- _]|[_ Hv]];
      [|by rewrite lookup_empty in Hv].
    vm_compute in Hsplit. injection Hsplit as <- <-.
    vm_compute. reflexivity.
  - repeat constructor.
  - vm_compute. reflexivity.
  - vm_compute. reflexivity.
Defined.

End ExistingJobs.

(** ** Collecting the sources *)

Section Collect.

Import Aggregator.

#[local] Arguments Scrapers._job_key : simpl never.

Lemma agg_keys_cons j jobs :
  agg_keys (j :: jobs) = {[ Scrapers._job_key j ]} ∪ agg_keys jobs.
Proof. reflexivity. Qed.

Lemma foldl_collect_job jobs : forall all_jobs seen,
  (foldl collect_job (all_jobs, seen) jobs).1
  = all_jobs ++ collect_from seen jobs
  /\ (foldl collect_job (all_jobs, seen) jobs).2 = seen ∪ agg_keys jobs.
Proof.
  induction jobs as [|job rest IH]; intros all_jobs seen.
  - simpl. rewrite app_nil_r. split; [done|]. unfold agg_keys. simpl.
    set_solver.
  - cbn [foldl collect_from]. cbv zeta. rewrite agg_keys_cons.
    unfold collect_job at 2 4. cbn [fst snd].
    case_bool_decide as Hkey.
    + destruct (IH (all_jobs ++ [job])
                   (seen ∪ {[ Scrapers._job_key job ]})) as [-> ->].
      rewrite <- app_assoc. split; [done|].
      remember (Scrapers._job_key job) as k. remember (agg_keys rest) as ks.
      clear. set_solver.
    + destruct (IH all_jobs seen) as [-> ->]. split; [done|].
      remember (Scrapers._job_key job) as k. remember (agg_keys rest) as ks.
      clear -Hkey. set_solver.
Qed.

Lemma foldl_sources scrapers order : forall st,
  foldl (fun st source_name =>
           foldl collect_job st (scrape_source scrapers source_name))
        st order
  = foldl collect_job st (scraped scrapers order).
Proof.
  unfold scraped.
  induction order as [|name order IH]; intros st; simpl; [done|].
  by rewrite IH, foldl_app.
Qed.

Lemma collect_collect_from scrapers order :
  collect scrapers order = collect_from ∅ (scraped scrapers order).
Proof.
  unfold collect. rewrite foldl_sources.
  by destruct (foldl_collect_job (scraped scrapers order) [] ∅) as [-> _].
Qed.

Lemma collect_from_sublist jobs : forall seen,
  sublist (collect_from seen jobs) jobs.
Proof.
  induction jobs as [|job rest IH]; intros seen; simpl; [constructor|].
  case_bool_decide; [apply sublist_skip | apply sublist_cons]; apply IH.
Qed.

Lemma collect_from_keys jobs : forall seen,
  agg_keys (collect_from seen jobs) = agg_keys jobs ∖ seen.
Proof.
  induction jobs as [|job rest IH]; intros seen.
  - unfold agg_keys. simpl. set_solver.
  - cbn [collect_from]. cbv zeta. rewrite agg_keys_cons.
    case_bool_decide as Hkey.
    + rewrite agg_keys_cons, IH.
      remember (Scrapers._job_key job) as k. remember (agg_keys rest) as ks.
      clear -Hkey. apply set_eq. intros x.
      destruct (decide (x = k)) as [->|]; set_solver.
    + rewrite IH.
      remember (Scrapers._job_key job) as k. remember (agg_keys rest) as ks.
      clear -Hkey. set_solver.
Qed.

Lemma collect_from_NoDup jobs : forall seen,
  NoDup (map Scrapers._job_key (collect_from seen jobs)).
Proof.
  induction jobs as [|job rest IH]; intros seen; simpl; [constructor|].
  case_bool_decide as Hkey; [|apply IH]. simpl. constructor; [|apply IH].
  intros Hin.
  assert (Scrapers._job_key job
          ∈ agg_keys (collect_from (seen ∪ {[ Scrapers._job_key job ]}) rest))
    as Hk by (unfold agg_keys; by apply elem_of_list_to_set).
  rewrite collect_from_keys in Hk. set_solver.
Qed.

Lemma length_NoDup_keys jobs :
  NoDup (map Scrapers._job_key jobs) -> length jobs = size (agg_keys jobs).
Proof.
  intros Hnd. unfold agg_keys.
  rewrite <- (length_map Scrapers._job_key).
  symmetry. by apply size_list_to_set.
Qed.

(** X7.  The jobs `scrape_all` returns are a subsequence of the jobs its
    sources return, read in dictionary order, where an unknown or failing
    source returns nothing; no two of them have the same aggregator key; and
    every aggregator key a source returned is the key of one of them. *)
Theorem scrape_all_unique (scrapers : list (pystr * Exc (list Job))) :
  let out := scrape_all scrapers in
  let all := scraped scrapers (map fst scrapers) in
  sublist out all
  /\ NoDup (map Scrapers._job_key out)
  /\ (forall j, j ∈ all ->
        exists j', j' ∈ out /\ Scrapers._job_key j' = Scrapers._job_key j).
Proof.
  intros out all. subst out all. unfold scrape_all.
  rewrite collect_collect_from.
  split; [apply collect_from_sublist|]. split; [apply collect_from_NoDup|].
  intros j Hj.
  assert (Scrapers._job_key j
          ∈ agg_keys (collect_from ∅ (scraped scrapers (map fst scrapers))))
    as Hk.
  { rewrite collect_from_keys. unfold agg_keys.
    apply elem_of_difference. split; [|apply not_elem_of_empty].
    apply elem_of_list_to_set, list_elem_of_fmap. by exists j. }
  unfold agg_keys in Hk.
  apply elem_of_list_to_set, list_elem_of_fmap in Hk as (j' & Heq & Hj').
  by exists j'.
Qed.

Lemma scraped_keys_perm scrapers order order' :
  order ≡ₚ order' ->
  agg_keys (scraped scrapers order) = agg_keys (scraped scrapers order').
Proof.
  intros Hperm. unfold agg_keys, scraped.
  apply set_eq. intros k. rewrite !elem_of_list_to_set.
  by rewrite Hperm.
Qed.

(** X8.  The order in which the sources are read, which in parallel mode is
    the order in which they complete, changes neither the set of aggregator
    keys of the collected jobs nor their number. *)
Theorem collect_order_independent
    (scrapers : list (pystr * Exc (list Job))) (order order' : list pystr) :
  order ≡ₚ order' ->
  agg_keys (collect scrapers order) = agg_keys (collect scrapers order')
  /\ length (collect scrapers order) = length (collect scrapers order').
Proof.
  intros Hperm.
  assert (agg_keys (collect scrapers order)
          = agg_keys (collect scrapers order')) as Hkeys.
  { rewrite !collect_collect_from, !collect_from_keys.
    by rewrite (scraped_keys_perm scrapers order order'). }
  split; [done|].
  rewrite (length_NoDup_keys (collect scrapers order)),
          (length_NoDup_keys (collect scrapers order')).
  - by rewrite Hkeys.
  - rewrite collect_collect_from. apply collect_from_NoDup.
  - rewrite collect_collect_from. apply collect_from_NoDup.
Qed.

End Collect.

Lemma collect_order_independent_witness :
  let scrapers :=
    [(py "remoteok", Return [posting "ML Engineer" "Acme"]);
     (py "jobicy", Return [posting "ml engineer" "ACME";
                           posting "NLP Engineer" "Beta"]);
     (py "indeed", Raise ValueError)] in
  length (Aggregator.collect scrapers
            [py "remoteok"; py "jobicy"; py "indeed"])
  = length (Aggregator.collect scrapers
              [py "jobicy"; py "remoteok"; py "indeed"]).
Proof.
  intros scrapers.
  apply (collect_order_independent scrapers
           [py "remoteok"; py "jobicy"; py "indeed"]
           [py "jobicy"; py "remoteok"; py "indeed"]).
  apply perm_swap.
Defined.

(** ** The filters of an adapter *)

Section AdapterFilters.

Import Filters.

Lemma occurs_in_trans a b c : occurs_in a b -> occurs_in b c -> occurs_in a c.
Proof.
  intros (p1 & q1 & ->) (p2 & q2 & ->).
  exists (p2 ++ p1), (q1 ++ q2). by rewrite <- !app_assoc.
Qed.

Lemma covered_by_matches ks ks' text :
  covered_by ks ks' = true -> matches ks text -> matches ks' text.
Proof.
  unfold covered_by. rewrite forallb_forall.
  intros Hcov (k & Hk & Hin).
  apply list_elem_of_In, Hcov, existsb_exists in Hk as (k' & Hk' & Hsub).
  exists k'. split; [by apply list_elem_of_In|].
  apply contains_spec in Hsub. by apply (occurs_in_trans _ k).
Qed.

Lemma _is_ai_ml_job_spec t d :
  _is_ai_ml_job t d = true
  <-> matches AI_ML_KEYWORDS (lower t ++ py " " ++ lower d).
Proof.
  unfold _is_ai_ml_job, lower. rewrite !map_app.
  apply (any_keyword_spec AI_ML_KEYWORDS).
Qed.

(** X10.  The pre-filter of the adapters lets through every posting the
    later stages rate by keyword: a posting the fallback scorer puts in its
    high tier (score 9), and a posting whose title has one of the keywords
    of the stage's error fallback, both satisfy `_is_ai_ml_job`. *)
Theorem prefilter_admits_rated_postings (job : Job) :
  let t := default [] (title job) in
  let d := default [] (description job) in
  (Scorer._fallback_score job = 9 -> _is_ai_ml_job t d = true)
  /\ (matches Main.FALLBACK_KEYWORDS (lower t) -> _is_ai_ml_job t d = true).
Proof.
  intros t d. split.
  - intros Hscore. apply _is_ai_ml_job_spec.
    apply (covered_by_matches Scorer.HIGH_RELEVANCE); [reflexivity|].
    unfold Scorer._fallback_score in Hscore. fold t d in Hscore.
    destruct (Scorer.any_keyword Scorer.HIGH_RELEVANCE
                (lower t ++ py " " ++ lower d)) eqn:Hhigh.
    { by apply any_keyword_spec. }
    destruct (Scorer.any_keyword Scorer.MEDIUM_RELEVANCE _); [done|].
    by destruct (Scorer.any_keyword Scorer.LOW_RELEVANCE _).
  - intros (k & Hk & (pre & post & Hin)). apply _is_ai_ml_job_spec.
    apply (covered_by_matches Main.FALLBACK_KEYWORDS); [reflexivity|].
    exists k. split; [done|]. exists pre, (post ++ py " " ++ lower d).
    rewrite Hin. by rewrite <- !app_assoc.
Qed.

Lemma prefilter_admits_rated_postings_witness :
  _is_ai_ml_job (py "Senior Data Scientist") [] = true.
Proof.
  destruct (prefilter_admits_rated_postings
              (posting "Senior Data Scientist" "Acme")) as [Hhigh _].
  apply Hhigh. reflexivity.
Defined.

(** X11.  `_matches_preferences` rejects a job exactly when the lower-cased
    name of an excluded company occurs in the job's lower-cased company;
    with no excluded company every job passes, and an excluded entry that is
    the empty string rejects every job. *)
Theorem matches_preferences_spec (excluded_companies : list pystr)
    (job : Job) :
  (_matches_preferences excluded_companies job = false
   <-> exists e, e ∈ excluded_companies
                 /\ occurs_in (lower e) (lower (default [] (company job))))
  /\ _matches_preferences [] job = true
  /\ ([] ∈ excluded_companies ->
      _matches_preferences excluded_companies job = false).
Proof.
  assert (_matches_preferences excluded_companies job = false
          <-> exists e, e ∈ excluded_companies
                /\ occurs_in (lower e) (lower (default [] (company job))))
    as Hspec.
  { unfold _matches_preferences. rewrite negb_false_iff, existsb_exists.
    split; intros (e & He & Hin); exists e.
    - split; [by apply list_elem_of_In | by apply contains_spec].
    - split; [by apply list_elem_of_In | by apply contains_spec]. }
  split; [exact Hspec|]. split; [done|].
  intros Hempty. apply Hspec. exists []. split; [done|].
  by exists [], (lower (default [] (company job))).
Qed.

Lemma matches_preferences_spec_witness :
  _matches_preferences [py "MegaCorp"; py ""]
                       (posting "ML Engineer" "Acme") = false.
Proof.
  destruct (matches_preferences_spec [py "MegaCorp"; py ""]
              (posting "ML Engineer" "Acme")) as (_ & _ & Hempty).
  apply Hempty. repeat constructor.
Defined.

End AdapterFilters.

(** ** The scorer and the matcher *)

Section ScorerMatcher.

Import PyVal.

Lemma fallback_score_values job :
  Scorer._fallback_score job ∈ [3; 5; 7; 9].
Proof.
  unfold Scorer._fallback_score.
  destruct (Scorer.any_keyword Scorer.HIGH_RELEVANCE _);
    [set_solver|].
  destruct (Scorer.any_keyword Scorer.MEDIUM_RELEVANCE _);
    [set_solver|].
  destruct (Scorer.any_keyword Scorer.LOW_RELEVANCE _); set_solver.
Qed.

Lemma parse_unparsable rt response :
  unparsable rt response ->
  Scorer._parse_llm_response rt response = Return None.
Proof.
  intros (Hjson & Hobject & Hfield & Hnumbers).
  unfold Scorer._parse_llm_response.
  destruct (negb (truthy response)); [done|].
  rewrite Hjson, Hfield, Hnumbers.
  destruct (re_search rt Scorer.json_object_pattern true response)
    as [m|] eqn:Hm; [|done].
  by rewrite (Hobject m).
Qed.

Lemma parse_decoded rt response v :
  truthy response = true ->
  json_loads rt response = Some v ->
  Scorer._parse_llm_response rt response = Return (Some v).
Proof.
  intros Htruthy Hjson. unfold Scorer._parse_llm_response.
  by rewrite Htruthy, Hjson.
Qed.

(** The reply `score_relevance` reads when the process answers with
    [response]. *)
Lemma call_replies rt model prompt response :
  replies_with rt response ->
  Scorer._call_ollama rt model prompt = Some response.
Proof.
  intros Hreply. unfold Scorer._call_ollama.
  destruct (Hreply [py "ollama"; py "run"; model; prompt])
    as (stdout & -> & <-).
  reflexivity.
Qed.



Import MatchJob.

Lemma dict_get_set k d v items : dict_get k d (dict_set k v items) = v.
Proof.
  unfold dict_get. induction items as [|kv items IH]; simpl.
  - by rewrite bool_decide_eq_true_2.
  - case_bool_decide as Hk; simpl.
    + by rewrite bool_decide_eq_true_2.
    + by rewrite bool_decide_eq_false_2.
Qed.

(** X13.  `match_job` never raises, and the match score of the dictionary it
    returns is an integer in [1, 10] on every path: a reply whose score is
    missing, out of range or not a number, a reply that is not a JSON
    object, no reply at all, or no resume text. *)
Theorem match_job_score_range (rt : Runtime) (model resume : pystr)
    (skills : gset pystr) (job : Job) :
  exists n,
    get_match_score (match_job rt model resume skills job) = JInt n
    /\ 1 <= n <= 10.
Proof.
  assert (exists n,
            get_match_score
              (FromKeywords (Matcher._keyword_match rt skills job)) = JInt n
            /\ 1 <= n <= 10) as Hfallback.
  { eexists. split; [reflexivity|]. simpl. apply overlap_score_range. }
  unfold match_job. cbv zeta.
  destruct (truthy resume && (100 <? length resume)%nat); [|done].
  destruct (_call_ollama rt model _) as [response|]; [|done].
  destruct (truthy response); [|done].
  destruct (re_search rt json_block_pattern false response) as [m|]; [|done].
  destruct (json_loads rt (group0 m)) as [[| | | | | |items]|]; try done.
  destruct (py_int (dict_get (py "match_score") (JInt 5) items)) as [n|e];
    [|done].
  exists (Z.max 1 (Z.min 10 n)). split; [|lia].
  unfold get_match_score. apply dict_get_set.
Qed.

Import Matcher.

(** X14.  The skill lists of `_keyword_match`: every reported matching
    skill is a skill of the user and of the job, every reported missing
    skill is a skill of the job that the user lacks, no skill is reported
    twice or in both lists, each list has at most ten entries, and when the
    job has at most ten skills every one of them is reported. *)
Theorem keyword_match_lists (rt : Runtime) (skills : gset pystr)
    (job : Job) :
  let job_skills := job_skills_of rt job in
  exists ms miss,
    matching_skills (_keyword_match rt skills job) = Some ms
    /\ missing_skills (_keyword_match rt skills job) = Some miss
    /\ (length ms <= 10)%nat /\ (length miss <= 10)%nat
    /\ (forall s, s ∈ ms -> s ∈ skills /\ s ∈ job_skills)
    /\ (forall s, s ∈ miss -> s ∈ job_skills /\ s ∉ skills)
    /\ NoDup (ms ++ miss)
    /\ ((size job_skills <= 10)%nat ->
        forall s, s ∈ job_skills <-> s ∈ ms ++ miss).
Proof.
  intros job_skills.
  exists (take 10 (elements (skills ∩ job_skills))),
         (take 10 (elements (job_skills ∖ skills))).
  assert (forall X : gset pystr, NoDup (take 10 (elements X))) as Hnodup.
  { intros X. apply (sublist_NoDup _ (elements X));
      [apply NoDup_elements | apply sublist_take]. }
  assert (forall (X : gset pystr) s,
            s ∈ take 10 (elements X) -> s ∈ X) as Htake.
  { intros X s Hs. apply elem_of_elements.
    by apply (subseteq_take 10). }
  split; [done|]. split; [done|].
  split; [rewrite length_take; lia|]. split; [rewrite length_take; lia|].
  split; [intros s Hs%Htake; set_solver|].
  split; [intros s Hs%Htake; set_solver|].
  split.
  - apply NoDup_app. split; [|split].
    + apply Hnodup.
    + intros s Hs%Htake Hs'%Htake. set_solver.
    + apply Hnodup.
  - intros Hsize s.
    assert (size (skills ∩ job_skills) <= 10)%nat as H1.
    { etrans; [|exact Hsize]. apply subseteq_size. set_solver. }
    assert (size (job_skills ∖ skills) <= 10)%nat as H2.
    { etrans; [|exact Hsize]. apply subseteq_size. set_solver. }
    rewrite (take_ge (elements (skills ∩ job_skills))) by exact H1.
    rewrite (take_ge (elements (job_skills ∖ skills))) by exact H2.
    rewrite elem_of_app, !elem_of_elements.
    destruct (decide (s ∈ skills)); set_solver.
Qed.

End ScorerMatcher.

(** ** The skills of a profile *)

Section ProfileSkills.

Import Matcher MatchJob.

Lemma extract_patterns rt text_lower pats : forall (acc : gset pystr) s,
  s ∈ foldl (fun skills pattern =>
               match re_search rt (py "\b" ++ pattern ++ py "\b")
                               false text_lower with
               | Some _ => skills ∪ {[ skill_name pattern ]}
               | None => skills
               end) acc pats ->
  s ∈ acc \/ exists p, p ∈ pats /\ s = skill_name p.
Proof.
  induction pats as [|p pats IH]; intros acc s; simpl; [by left|].
  intros [Hs|(p' & Hp' & ->)]%IH.
  - destruct (re_search rt _ false text_lower).
    + apply elem_of_union in Hs as [?| ->%elem_of_singleton]; [by left|].
      right. exists p. split; [constructor | done].
    + by left.
  - right. exists p'. split; [by constructor | done].
Qed.

(** Every skill extracted from a text is the name of a pattern of the skill
    dictionary. *)
Lemma extract_in_dictionary rt text s :
  s ∈ _extract_skills_from_text rt text ->
  exists p, p ∈ all_patterns /\ s = skill_name p.
Proof.
  unfold _extract_skills_from_text, all_patterns. cbv zeta.
  generalize (lower text). intros text_lower.
  assert (forall cats (acc : gset pystr),
            s ∈ foldl (fun skills (cat : pystr * list pystr) =>
                         foldl (fun skills pattern =>
                                  match re_search rt
                                          (py "\b" ++ pattern ++ py "\b")
                                          false text_lower with
                                  | Some _ => skills ∪ {[ skill_name pattern ]}
                                  | None => skills
                                  end) skills cat.2) acc cats ->
            s ∈ acc \/ exists p, p ∈ concat (map snd cats)
                                 /\ s = skill_name p) as Hgen.
  { induction cats as [|cat cats IH]; intros acc; simpl; [by left|].
    intros [Hs|(p & Hp & ->)]%IH.
    - apply extract_patterns in Hs as [?|(p & Hp & ->)]; [by left|].
      right. exists p. split; [|done]. apply elem_of_app. by left.
    - right. exists p. split; [|done]. apply elem_of_app. by right. }
  intros Hs%Hgen. destruct Hs as [Hs|Hs]; [|done].
  by apply not_elem_of_empty in Hs.
Qed.

Lemma dictionary_lowercase p :
  p ∈ all_patterns -> lower (skill_name p) = skill_name p.
Proof.
  assert (forallb (fun p => bool_decide (lower (skill_name p) = skill_name p))
                  all_patterns = true) as Hall by (vm_compute; reflexivity).
  rewrite forallb_forall in Hall. intros Hp%list_elem_of_In.
  by apply (bool_decide_eq_true_1 _), Hall.
Qed.

Lemma lowercase_add_lowered (acc : gset pystr) skill :
  lowercase_skills acc -> lowercase_skills (acc ∪ {[ lower skill ]}).
Proof.
  intros Hacc s [?| ->%elem_of_singleton]%elem_of_union; [by apply Hacc|].
  apply lower_idem.
Qed.

Lemma lowercase_foldl skills_list : forall acc : gset pystr,
  lowercase_skills acc ->
  lowercase_skills
    (foldl (fun acc skill => acc ∪ {[ lower skill ]}) acc skills_list).
Proof.
  induction skills_list as [|skill rest IH]; intros acc Hacc; simpl; [done|].
  by apply IH, lowercase_add_lowered.
Qed.

Lemma lowercase_extracted rt text :
  lowercase_skills (_extract_skills_from_text rt text).
Proof.
  intros s (p & Hp & ->)%extract_in_dictionary.
  by apply dictionary_lowercase.
Qed.

(** X15.  The skills of a profile are always in lower case: those a new
    matcher takes from the resume (names of the skill dictionary) and from
    the configuration, after any `add_skill` and `remove_skill`; and so are
    the skills `_keyword_match` finds for a job, so that a skill listed by a
    job or the configuration in any casing is compared case-insensitively. *)
Theorem profile_skills_lowercase (rt : Runtime) :
  (forall resume configured,
     lowercase_skills (user_skills (init_profile rt resume configured)))
  /\ (forall p skill,
        lowercase_skills (user_skills p) ->
        lowercase_skills (user_skills (add_skill skill p))
        /\ lowercase_skills (user_skills (remove_skill skill p)))
  /\ (forall job, lowercase_skills (job_skills_of rt job)).
Proof.
  split; [|split].
  - intros resume configured. unfold init_profile. simpl.
    apply lowercase_foldl. destruct resume as [text|].
    + apply lowercase_extracted.
    + intros s Hs. by apply not_elem_of_empty in Hs.
  - intros p skill Hp. split.
    + by apply lowercase_add_lowered.
    + intros s [Hs _]%elem_of_difference. by apply Hp.
  - intros job. unfold job_skills_of. cbv zeta.
    apply lowercase_foldl, lowercase_extracted.
Qed.

End ProfileSkills.

Lemma keyword_match_lists_witness :
  exists ms miss,
    Matcher.matching_skills
      (Matcher._keyword_match offline {[ py "python" ]} listed_skills_job)
    = Some ms
    /\ Matcher.missing_skills
         (Matcher._keyword_match offline {[ py "python" ]} listed_skills_job)
       = Some miss
    /\ forall s, s ∈ Matcher.job_skills_of offline listed_skills_job
                 <-> s ∈ ms ++ miss.
Proof.
  destruct (keyword_match_lists offline {[ py "python" ]} listed_skills_job)
    as (ms & miss & H1 & H2 & _ & _ & _ & _ & _ & Hall).
  exists ms, miss. split; [exact H1|]. split; [exact H2|].
  apply Hall. vm_compute. lia.
Defined.

Lemma profile_skills_lowercase_witness :
  lowercase_skills
    (MatchJob.user_skills
       (MatchJob.add_skill (py "PyTorch")
          (MatchJob.init_profile offline None [py "Python"; py "SQL"]))).
Proof.
  destruct (profile_skills_lowercase offline) as (Hinit & Hstep & _).
  apply Hstep, Hinit.
Defined.

(** ** Verdicts and ranking of the scoring stage *)

Section Ranking.

Import Main.

Lemma length_omap_le {A B} (f : A -> option B) (l : list A) :
  (length (omap f l) <= length l)%nat.
Proof.
  induction l as [|x l IH]; [done|].
  change (omap f (x :: l))
    with (match f x with Some y => y :: omap f l | None => omap f l end).
  destruct (f x); simpl; lia.
Qed.

Lemma insert_desc_perm x l : insert_desc x l ≡ₚ x :: l.
Proof.
  induction l as [|y l IH]; simpl; [done|].
  destruct (Qle_bool (sort_key x) (sort_key y)); [|done].
  rewrite IH. apply perm_swap.
Qed.

Lemma sort_desc_perm l : sort_desc l ≡ₚ l.
Proof.
  unfold sort_desc.
  assert (forall acc, foldl (fun acc x => insert_desc x acc) acc l
                      ≡ₚ acc ++ l) as Hgen.
  { induction l as [|x l IH]; intros acc; simpl.
    - by rewrite app_nil_r.
    - rewrite IH, insert_desc_perm.
      by rewrite (Permutation_middle acc l x). }
  by rewrite Hgen.
Qed.

Lemma insert_desc_sorted x l :
  StronglySorted ranked_before l ->
  StronglySorted ranked_before (insert_desc x l).
Proof.
  induction 1 as [|y l Hl IH Hy]; simpl.
  - by repeat constructor.
  - destruct (Qle_bool (sort_key x) (sort_key y)) eqn:Hxy.
    + constructor; [done|].
      rewrite insert_desc_perm. constructor; [|done].
      by apply Qle_bool_iff.
    + assert (sort_key y < sort_key x)%Q as Hlt.
      { apply Qnot_le_lt. intros H%Qle_bool_iff. congruence. }
      constructor; [by constructor|].
      constructor; [by apply Qlt_le_weak|].
      eapply Forall_impl; [exact Hy|]. intros z Hz. unfold ranked_before in *.
      apply (Qle_trans _ (sort_key y)); [exact Hz|]. by apply Qlt_le_weak.
Qed.

Lemma with_key_insert_desc q x l :
  StronglySorted ranked_before l ->
  with_key q (insert_desc x l)
  = if Qeq_bool (sort_key x) q then with_key q l ++ [x] else with_key q l.
Proof.
  unfold with_key.
  induction 1 as [|y l Hl IH Hy]; simpl.
  - by destruct (Qeq_bool (sort_key x) q).
  - destruct (Qle_bool (sort_key x) (sort_key y)) eqn:Hxy; simpl.
    + rewrite IH.
      by destruct (Qeq_bool (sort_key y) q), (Qeq_bool (sort_key x) q).
    + destruct (Qeq_bool (sort_key x) q) eqn:Hx; [|done].
      assert (sort_key y < sort_key x)%Q as Hlt.
      { apply Qnot_le_lt. intros H%Qle_bool_iff. congruence. }
      apply Qeq_bool_iff in Hx.
      assert (Qeq_bool (sort_key y) q = false) as ->.
      { apply not_true_iff_false. intros Hq%Qeq_bool_iff.
        rewrite Hq, Hx in Hlt. by apply Qlt_irrefl in Hlt. }
      assert (List.filter (fun j => Qeq_bool (sort_key j) q) l = []) as ->.
      { clear IH Hl. induction Hy as [|z l Hz _ IHl]; simpl; [done|].
        assert (Qeq_bool (sort_key z) q = false) as ->; [|exact IHl].
        apply not_true_iff_false. intros Hq%Qeq_bool_iff.
        unfold ranked_before in Hz. rewrite Hq, <- Hx in Hz.
        by apply Qle_not_lt in Hz. }
      done.
Qed.

Lemma sort_desc_sorted_stable l :
  StronglySorted ranked_before (sort_desc l)
  /\ forall q, with_key q (sort_desc l) = with_key q l.
Proof.
  unfold sort_desc.
  assert (forall acc,
            StronglySorted ranked_before acc ->
            StronglySorted ranked_before
              (foldl (fun acc x => insert_desc x acc) acc l)
            /\ forall q,
                 with_key q (foldl (fun acc x => insert_desc x acc) acc l)
                 = with_key q acc ++ with_key q l) as Hgen.
  { induction l as [|x l IH]; intros acc Hacc; simpl.
    - split; [done|]. intros q. by rewrite app_nil_r.
    - destruct (IH (insert_desc x acc)) as [Hs Hk];
        [by apply insert_desc_sorted|].
      split; [done|]. intros q. rewrite Hk, with_key_insert_desc by done.
      unfold with_key. simpl.
      destruct (Qeq_bool (sort_key x) q); [|done].
      by rewrite <- app_assoc. }
  destruct (Hgen []) as [Hs Hk]; [constructor|]. split; [done|].
  intros q. by rewrite Hk.
Qed.

Variable score_relevance : Job -> Exc Z.
Variable match_job : Job -> Exc MatchDict.
Variable config : Config.

Lemma on_error_shape l job :
  on_error l job = l ++ option_list (head (on_error [] job)).
Proof.
  unfold on_error. destruct (existsb _ FALLBACK_KEYWORDS); simpl; [done|].
  by rewrite app_nil_r.
Qed.

Lemma process_job_verdict st job :
  processed_jobs (process_job score_relevance match_job config st job)
  = processed_jobs st
    ++ option_list (verdict score_relevance match_job config job).
Proof.
  unfold verdict, process_job.
  destruct (score_relevance job) as [r|e]; cbn [processed_jobs];
    [|apply on_error_shape].
  destruct (r <? min_relevance_score config); cbn [processed_jobs];
    [by rewrite app_nil_r|].
  destruct (match_job job) as [m|e]; cbn [processed_jobs];
    [|apply on_error_shape].
  destruct (score_job r m job) as [[c job']|e]; cbn [processed_jobs];
    [|apply on_error_shape].
  destruct (Float64.ge _ _); cbn [processed_jobs]; [done|].
  by rewrite app_nil_r.
Qed.

Lemma run_stage_verdicts jobs :
  processed_jobs (run_stage score_relevance match_job config jobs)
  = omap (verdict score_relevance match_job config) jobs.
Proof.
  unfold run_stage.
  assert (forall st,
            processed_jobs
              (foldl (process_job score_relevance match_job config) st jobs)
            = processed_jobs st
              ++ omap (verdict score_relevance match_job config) jobs)
    as Hgen.
  { induction jobs as [|job jobs IH]; intros st; simpl.
    - by rewrite app_nil_r.
    - rewrite IH, process_job_verdict, <- app_assoc. f_equal.
      by destruct (verdict score_relevance match_job config job). }
  by rewrite Hgen.
Qed.

Lemma verdict_scores job j' :
  verdict score_relevance match_job config job = Some j' ->
  exists r m c ms miss ai, j' = set_scores r m c ms miss ai job.
Proof.
  assert (head (on_error [] job) = Some j' ->
          exists r m c ms miss ai, j' = set_scores r m c ms miss ai job)
    as Herr.
  { unfold on_error. destruct (existsb _ FALLBACK_KEYWORDS); [|done].
    intros [= <-]. by eexists _, _, _, _, _, _. }
  unfold verdict, process_job.
  destruct (score_relevance job) as [r|e]; cbn [processed_jobs];
    [|exact Herr].
  destruct (r <? min_relevance_score config); cbn [processed_jobs]; [done|].
  destruct (match_job job) as [m|e]; cbn [processed_jobs]; [|exact Herr].
  destruct (score_job r m job) as [[c job']|e] eqn:Hscore;
    cbn [processed_jobs]; [|exact Herr].
  destruct (Float64.ge _ _); cbn [processed_jobs]; [|done].
  intros [= <-]. unfold score_job in Hscore.
  destruct (combined_score_of _ _) as [[x| |]|]; try done.
  injection Hscore as _ <-. by eexists _, _, _, _, _, _.
Qed.

(** X16.  The stage judges every posting on its own: the accepted postings,
    before ranking, are the verdicts on the postings of the batch, in input
    order, and a verdict depends on nothing but the posting.  An accepted
    posting is the input posting with only its six score fields set, so the
    output never has more postings than the input. *)
Theorem stage_verdicts (jobs : list Job) :
  let out := process_jobs_with_ai score_relevance match_job config jobs in
  out ≡ₚ omap (verdict score_relevance match_job config) jobs
  /\ (forall j', j' ∈ out ->
        exists j r m c ms miss ai,
          j ∈ jobs /\ j' = set_scores r m c ms miss ai j)
  /\ (length out <= length jobs)%nat.
Proof.
  intros out. subst out. unfold process_jobs_with_ai.
  assert (sort_desc
            (processed_jobs (run_stage score_relevance match_job config jobs))
          ≡ₚ omap (verdict score_relevance match_job config) jobs) as Hperm.
  { by rewrite sort_desc_perm, run_stage_verdicts. }
  split; [exact Hperm|]. split.
  - intros j' Hj'. rewrite Hperm in Hj'.
    apply list_elem_of_omap in Hj' as (j & Hj & Hv).
    apply verdict_scores in Hv as (r & m & c & ms & miss & ai & ->).
    by exists j, r, m, c, ms, miss, ai.
  - rewrite Hperm. apply length_omap_le.
Qed.

(** X17.  The output of the stage is ranked: combined scores never increase
    along the list, and postings with the same combined score keep the
    order in which they were accepted. *)
Theorem stage_output_ranked (jobs : list Job) :
  let out := process_jobs_with_ai score_relevance match_job config jobs in
  StronglySorted ranked_before out
  /\ forall q,
       with_key q out
       = with_key q (omap (verdict score_relevance match_job config) jobs).
Proof.
  intros out. subst out. unfold process_jobs_with_ai.
  rewrite <- run_stage_verdicts. apply sort_desc_sorted_stable.
Qed.

End Ranking.

(** ** Storing the qualified jobs *)

Section StoreLoop.

Import Storage Pipeline.

Variable str_num : Q -> pystr.

(** `', '.join(v[:5])` on a list of six strings, on a string, on a list
    whose sixth item only is not a string, and on three values it raises
    for. *)
Lemma first_five_examples :
  Utils.first_five
    (PyVal.str_list [py "a"; py "b"; py "c"; py "d"; py "e"; py "f"])
  = Return (py "a, b, c, d, e")
  /\ Utils.first_five (JStr (py "python")) = Return (py "p, y, t, h, o")
  /\ Utils.first_five
       (JArr (map JStr [py "a"; py "b"; py "c"; py "d"; py "e"] ++ [JInt 7]))
     = Return (py "a, b, c, d, e")
  /\ Utils.first_five JNull = Raise TypeError
  /\ Utils.first_five (JArr [JStr (py "a"); JNull]) = Raise TypeError
  /\ Utils.first_five (JObj [(py "a", JInt 1)]) = Raise TypeError.
Proof. repeat split. Qed.

(** The row of a job that can be formatted: fourteen values, the title and
    the company in the second and third place. *)
Lemma format_returns today job :
  formattable job = true ->
  exists values,
    Utils.format_job_for_storage today job = Return values
    /\ length values = length HEADERS
    /\ row_field 1 (map (Utils.to_cell str_num) values)
       = default (py "Unknown") (title job)
    /\ row_field 2 (map (Utils.to_cell str_num) values)
       = default (py "Unknown") (company job).
Proof.
  unfold formattable, Utils.format_job_for_storage.
  destruct (Utils.first_five (default (JArr []) (matching_skills job)))
    as [matching|e]; [|done].
  destruct (Utils.first_five (default (JArr []) (missing_skills job)))
    as [missing|e]; [|done].
  intros _. eexists. split; [reflexivity|]. by repeat split.
Qed.

Lemma format_raises today job :
  formattable job = false ->
  exists e, Utils.format_job_for_storage today job = Raise e.
Proof.
  unfold formattable, Utils.format_job_for_storage.
  destruct (Utils.first_five (default (JArr []) (matching_skills job)))
    as [matching|e]; [|by exists e].
  destruct (Utils.first_five (default (JArr []) (missing_skills job)))
    as [missing|e]; [done | by exists e].
Qed.

Lemma append_formatted_row now values job st :
  length values = length HEADERS ->
  row_field 1 (map (Utils.to_cell str_num) values)
  = default (py "Unknown") (title job) ->
  row_field 2 (map (Utils.to_cell str_num) values)
  = default (py "Unknown") (company job) ->
  let row := map (Utils.to_cell str_num) values in
  let r := append_job now row (Some job) st in
  (is_Some (index st !! store_key job) -> r = (false, st))
  /\ (index st !! store_key job = None ->
      r.1 = true
      /\ index r.2 = <[ store_key job := isoformat now ]> (index st)
      /\ csv_rows r.2 = csv_rows st ++ [row]).
Proof.
  intros Hlen Htitle Hcompany row r. subst r row. unfold append_job.
  cbv zeta. rewrite Htitle, Hcompany.
  unfold job_exists, store_key.
  split.
  - intros Hk. by rewrite bool_decide_eq_true_2.
  - intros Hk. rewrite bool_decide_eq_false_2; [|by rewrite Hk; intros []].
    cbn [fst snd index csv_rows]. split; [done|]. split; [done|].
    do 2 f_equal. unfold pad_row.
    set (row := map (Utils.to_cell str_num) values).
    assert (length row = length HEADERS) as Hrow
      by (unfold row; by rewrite length_map).
    rewrite Hrow, Nat.sub_diag. cbn [replicate]. rewrite app_nil_r.
    apply take_ge. lia.
Qed.

Lemma length_filter_cons {A} (f : A -> bool) x l :
  length (List.filter f (x :: l))
  = ((if f x then 1 else 0) + length (List.filter f l))%nat.
Proof. simpl. by destruct (f x). Qed.

Lemma store_from_spec clock jobs : forall i acc,
  let r := store_from str_num clock i jobs acc in
  (size (index r.2) + acc.1 = size (index acc.2) + r.1)%nat
  /\ (length (csv_rows r.2) + acc.1 = length (csv_rows acc.2) + r.1)%nat
  /\ (acc.1 <= r.1 <= acc.1 + length (List.filter formattable jobs))%nat
  /\ (forall k, is_Some (index acc.2 !! k) -> is_Some (index r.2 !! k))
  /\ (forall job, job ∈ jobs -> formattable job = true ->
                  is_Some (index r.2 !! store_key job)).
Proof.
  induction jobs as [|job rest IH]; intros i [n st].
  - simpl. repeat split; try lia; try done.
    intros job Hjob. by apply elem_of_nil in Hjob.
  - cbn [store_from]. rewrite length_filter_cons.
    destruct (formattable job) eqn:Hfmt.
    + destruct (format_returns (today (clock i)) job Hfmt)
        as (values & -> & Hlen & Htitle & Hcompany).
      cbv zeta.
      destruct (append_formatted_row (clock i) values job st Hlen Htitle
                  Hcompany) as [Hold Hnew].
      cbn [fst snd] in *.
      remember (append_job (clock i) (map (Utils.to_cell str_num) values)
                           (Some job) st) as r eqn:Hr.
      destruct (IH (S i) (if r.1 then S n else n, r.2))
        as (Hsize & Hrows & Hcount & Hmono & Hall).
      cbn [fst snd] in *.
      destruct (index st !! store_key job) as [v|] eqn:Hk.
      * assert (r = (false, st)) as Heq by (apply Hold; by exists v).
        rewrite Heq in *. cbn [fst snd] in *.
        split; [lia|]. split; [lia|]. split; [lia|]. split; [done|].
        intros job' [->|Hin]%elem_of_cons Hfmt'; [|by apply Hall].
        apply Hmono. by exists v.
      * destruct (Hnew eq_refl) as (Htrue & Hindex & Hcsv).
        rewrite Htrue in *.
        assert (size (index r.2) = S (size (index st))) as Hsz.
        { rewrite Hindex. by apply map_size_insert_None. }
        assert (length (csv_rows r.2) = S (length (csv_rows st))) as Hlen'.
        { rewrite Hcsv, length_app. simpl. lia. }
        split; [lia|]. split; [lia|]. split; [lia|]. split.
        -- intros k Hsome. apply Hmono. rewrite Hindex.
           destruct (decide (k = store_key job)) as [->|Hne].
           ++ rewrite lookup_insert_eq. by eexists.
           ++ by rewrite lookup_insert_ne.
        -- intros job' [->|Hin]%elem_of_cons Hfmt'; [|by apply Hall].
           apply Hmono. rewrite Hindex, lookup_insert_eq. by eexists.
    + destruct (format_raises (today (clock i)) job Hfmt) as [e ->].
      destruct (IH (S i) (n, st)) as (Hsize & Hrows & Hcount & Hmono & Hall).
      cbn [fst snd] in *.
      split; [lia|]. split; [lia|]. split; [lia|]. split; [done|].
      intros job' [->|Hin]%elem_of_cons Hfmt'; [congruence | by apply Hall].
Qed.

Lemma store_from_all_exist clock jobs : forall i n st,
  (forall job, job ∈ jobs -> formattable job = true ->
               is_Some (index st !! store_key job)) ->
  store_from str_num clock i jobs (n, st) = (n, st).
Proof.
  induction jobs as [|job rest IH]; intros i n st Hall; [done|].
  cbn [store_from].
  assert (store_from str_num clock (S i) rest (n, st) = (n, st)) as Hrest.
  { apply IH. intros job' Hin. apply Hall. by constructor. }
  destruct (formattable job) eqn:Hfmt.
  - destruct (format_returns (today (clock i)) job Hfmt)
      as (values & -> & Hlen & Htitle & Hcompany).
    cbv zeta.
    destruct (append_formatted_row (clock i) values job st Hlen Htitle
                Hcompany) as [Hold _].
    cbn [fst snd] in *. rewrite Hold by (apply Hall; [constructor | done]).
    exact Hrest.
  - destruct (format_raises (today (clock i)) job Hfmt) as [e ->].
    exact Hrest.
Qed.


End StoreLoop.


(** A reply of the model with `null` for the matching skills: `match_job`
    returns the decoded dictionary, the stage accepts the job with that
    entry, `format_job_for_storage` raises on it, and the job is not
    stored. *)
Lemma null_skills_reply_passed_over :
  let matcher job :=
    Return (MatchJob.stage_dict
              (MatchJob.match_job null_skills_runtime (py "llama3")
                                  (replicate 101 "a"%char) ∅ job)) in
  let qualified :=
    Main.process_jobs_with_ai (fixed_scorer 9) matcher
                              (Main.mkConfig 5 (FFinite 5))
                              [posting "ML Engineer" "Acme"] in
  map matching_skills qualified = [Some JNull]
  /\ forall str_num clock st,
       Pipeline.store_jobs str_num clock qualified st = (0%nat, st).
Proof.
  intros matcher qualified.
  assert (exists j, qualified = [j] /\ matching_skills j = Some JNull
                    /\ formattable j = false) as (j & -> & Hj & Hfmt).
  { eexists. split; [vm_compute; reflexivity|]. split; reflexivity. }
  split; [by rewrite <- Hj|].
  intros str_num clock st. unfold Pipeline.store_jobs.
  apply store_from_all_exist.
  intros job ->%list_elem_of_singleton Hjob. congruence.
Qed.

(** ** Running the pipeline again *)

Section RunAgain.

Import Storage Pipeline.

Variable score_relevance : Job -> Exc Z.
Variable match_job : Job -> Exc Main.MatchDict.
Variable config : Main.Config.
Variable str_num : Q -> pystr.

(** The early returns of `main` agree with the loops run on empty lists. *)
Lemma run_unfold clock scraped_jobs st :
  run score_relevance match_job config str_num clock scraped_jobs st
  = store_jobs str_num clock
      (Main.process_jobs_with_ai score_relevance match_job config
         (Helpers.deduplicate_jobs scraped_jobs
            (StorageQueries.get_existing_jobs st))) st.
Proof.
  unfold run. destruct scraped_jobs as [|job rest]; [done|].
  cbv zeta.
  destruct (Helpers.deduplicate_jobs (job :: rest) _) as [|n ns]; [done|].
  by destruct (Main.process_jobs_with_ai _ _ _ (n :: ns)).
Qed.

(** A larger store and a larger set of seen keys keep fewer jobs. *)
Lemma dedup_from_mono jobs : forall (ek0 ek1 seen0 seen1 : gset pystr) j,
  ek0 ⊆ ek1 -> seen0 ⊆ seen1 ∪ ek1 ->
  j ∈ dedup_from ek1 seen1 jobs -> j ∈ dedup_from ek0 seen0 jobs.
Proof.
  induction jobs as [|job rest IH]; intros ek0 ek1 seen0 seen1 j Hek Hseen;
    [done|].
  cbn [dedup_from]. cbv zeta. rewrite !dedup_cond.
  case_bool_decide as H1; case_bool_decide as H0.
  - intros [->|Hin]%elem_of_cons; [constructor|].
    apply elem_of_cons. right. revert Hin. apply IH; set_solver.
  - exfalso. apply H1. destruct H0 as [H0|H0].
    + left. by apply Hek.
    + apply Hseen, elem_of_union in H0. tauto.
  - intros Hin. apply elem_of_cons. right. revert Hin.
    apply IH; [done|].
    intros k [Hk| ->%elem_of_singleton]%elem_of_union; [by apply Hseen|].
    apply elem_of_union. tauto.
  - by apply IH.
Qed.

Lemma existing_keys_mono st st' :
  (forall k, is_Some (index st !! k) -> is_Some (index st' !! k)) ->
  Helpers.existing_keys_of (StorageQueries.get_existing_jobs st)
  ⊆ Helpers.existing_keys_of (StorageQueries.get_existing_jobs st').
Proof.
  intros Hmono k. rewrite !elem_of_existing_keys.
  intros (t & c & Hin & ->). exists t, c. split; [|done].
  apply elem_of_get_existing_jobs in Hin as (k & Hk & Hsplit).
  apply elem_of_get_existing_jobs. exists k. split; [by apply Hmono | done].
Qed.

Lemma elem_of_process_jobs j' jobs :
  j' ∈ Main.process_jobs_with_ai score_relevance match_job config jobs
  <-> exists j, j ∈ jobs
        /\ verdict score_relevance match_job config j = Some j'.
Proof.
  unfold Main.process_jobs_with_ai.
  rewrite elem_of_sort_desc, run_stage_verdicts, list_elem_of_omap.
  reflexivity.
Qed.


End RunAgain.

(** ** Deduplication as a normal form *)

Section DedupNormalForm.

Import Helpers.

Lemma dedup_from_keys_NoDup ek jobs : forall seen,
  NoDup (map dedup_key (dedup_from ek seen jobs)).
Proof.
  induction jobs as [|job rest IH]; intros seen; cbn [dedup_from];
    [constructor|].
  cbv zeta. destruct (_ && _); [|apply IH].
  cbn [map]. constructor; [|apply IH].
  intros Hin. apply list_elem_of_fmap in Hin as (j & Hkey & Hj).
  apply dedup_from_elem in Hj as (_ & _ & Hseen).
  apply Hseen. rewrite <- Hkey. set_solver.
Qed.

Lemma dedup_from_fixed ek jobs : forall seen,
  NoDup (map dedup_key jobs) ->
  (forall j, j ∈ jobs -> (dedup_key j ∉ ek) /\ (dedup_key j ∉ seen)) ->
  dedup_from ek seen jobs = jobs.
Proof.
  induction jobs as [|job rest IH]; intros seen Hnd Hout; [done|].
  cbn [dedup_from]. cbv zeta.
  destruct (Hout job) as [Hek Hseen]; [constructor|].
  rewrite !bool_decide_eq_true_2 by done. cbn [andb]. f_equal.
  cbn [map] in Hnd. apply NoDup_cons in Hnd as [Hfresh Hnd].
  apply IH; [done|]. intros j Hj.
  destruct (Hout j) as [Hek' Hseen']; [by constructor|].
  split; [done|]. intros [?|Heq%elem_of_singleton]%elem_of_union; [done|].
  apply Hfresh, list_elem_of_fmap. by exists j.
Qed.

(** X20.  `deduplicate_jobs` computes a normal form of the batch: applying
    it again, against the same stored pairs, changes nothing; and it
    returns a batch unchanged exactly when no two jobs of the batch share a
    key and no job of the batch has the key of a stored pair. *)
Theorem deduplicate_jobs_normal_form (new_jobs : list Job)
    (existing_jobs : list (pystr * pystr)) :
  deduplicate_jobs (deduplicate_jobs new_jobs existing_jobs) existing_jobs
  = deduplicate_jobs new_jobs existing_jobs
  /\ (deduplicate_jobs new_jobs existing_jobs = new_jobs
      <-> NoDup (map dedup_key new_jobs)
          /\ forall j, j ∈ new_jobs ->
               dedup_key j ∉ existing_keys_of existing_jobs).
Proof.
  rewrite !deduplicate_jobs_from.
  set (ek := existing_keys_of existing_jobs).
  assert (forall jobs,
            NoDup (map dedup_key jobs) ->
            (forall j, j ∈ jobs -> dedup_key j ∉ ek) ->
            dedup_from ek ∅ jobs = jobs) as Hfixed.
  { intros jobs Hnd Hout. apply dedup_from_fixed; [done|].
    intros j Hj. split; [by apply Hout | set_solver]. }
  split.
  - apply Hfixed; [apply dedup_from_keys_NoDup|].
    intros j Hj. by apply dedup_from_elem in Hj as (_ & ? & _).
  - split.
    + intros Heq. split.
      * rewrite <- Heq. apply dedup_from_keys_NoDup.
      * intros j Hj. rewrite <- Heq in Hj.
        by apply dedup_from_elem in Hj as (_ & ? & _).
    + intros [Hnd Hout]. by apply Hfixed.
Qed.

End DedupNormalForm.
